(** * Temperature dashboard: cleaning pipeline and aggregation layer

    A shallow embedding of [src/app.py]: the function
    [preprocess_temperature_data] (lines 13-46), the group-by/mean
    aggregations feeding the charts (lines 143-145, 295, 405-407) and the
    minimum/maximum lookups used for the annotations (lines 81-89, 166,
    313).

    A pandas [DataFrame] is a list of rows in row order; a column is the
    list of one field.  The tables are tables as [read_csv] delivers them:
    an empty cell is a [NaN], and [None] here stands for it in the [State]
    and [Year] columns and in the [state] column of the reference table;
    the other cells are present and of the column's type ([Year] integral,
    [City] and [name] strings).  What pandas does with a table that has no
    row at all, with cells of another type, or with a [Year] column that
    holds Python [None] objects (on which the comparison of line 38 raises)
    is not modelled; the only table with such a column that the code can
    meet is one it returned itself for an input without a valid year.

    Temperatures are kept abstract behind the numeric operations the source
    applies to them, with two instances: IEEE-754 binary64, which is what
    numpy computes with, and exact rationals.  Group means are taken over
    the rationals. *)

From Stdlib Require Import ZArith QArith Lia Lqa.
From Stdlib Require Import Floats.PrimFloat.
From Stdlib Require Import Sorting.Sorted.
From Stdlib Require Import Ascii.
From Stdlib Require OrderedTypeEx.
From stdpp Require Import gmap strings list sorting.

Open Scope Z_scope.

(** ** Numbers *)

(** The arithmetic the source performs on the [AvgTemperature] column:
    subtraction, multiplication and true division by integer literals (and
    the addition needed by the inverse formula). *)
Class Arith (T : Type) := {
  lit : Z -> T;
  add : T -> T -> T;
  sub : T -> T -> T;
  mul : T -> T -> T;
  div : T -> T -> T
}.

(** An integer literal as a binary64 value; the doubling scheme is exact
    below 2^53, far above the literals 32, 5 and 9 of the source. *)
Fixpoint float_of_pos (p : positive) : float :=
  match p with
  | xH => 1%float
  | xO q => (2 * float_of_pos q)%float
  | xI q => (2 * float_of_pos q + 1)%float
  end.

Definition float_of_Z (z : Z) : float :=
  match z with
  | Z0 => 0%float
  | Zpos p => float_of_pos p
  | Zneg p => (- float_of_pos p)%float
  end.

#[export] Instance float_arith : Arith float := {
  lit := float_of_Z;
  add := PrimFloat.add;
  sub := PrimFloat.sub;
  mul := PrimFloat.mul;
  div := PrimFloat.div
}.

#[export] Instance Q_arith : Arith Q := {
  lit := inject_Z;
  add := Qplus;
  sub := Qminus;
  mul := Qmult;
  div := Qdiv
}.

(** ** Tables *)

(** One row of the uploaded temperature table (columns
    [Region, Country, State, City, Year, Month, Day, AvgTemperature]). *)
Record Row (T : Type) := mkRow {
  Region : string;
  Country : string;
  State : option string;
  City : string;
  Year : option Z;
  Month : Z;
  Day : Z;
  AvgTemperature : T
}.
Arguments mkRow {T}.
Arguments Region {T}.
Arguments Country {T}.
Arguments State {T}.
Arguments City {T}.
Arguments Year {T}.
Arguments Month {T}.
Arguments Day {T}.
Arguments AvgTemperature {T}.

(** One row of the city reference table (columns [name, state]); an empty
    [state] cell is read as a null. *)
Record CityRow := mkCity {
  name : string;
  state : option string
}.

Definition set_State {T} (s : option string) (r : Row T) : Row T :=
  mkRow (Region r) (Country r) s (City r) (Year r) (Month r) (Day r)
        (AvgTemperature r).
Definition set_Day {T} (d : Z) (r : Row T) : Row T :=
  mkRow (Region r) (Country r) (State r) (City r) (Year r) (Month r) d
        (AvgTemperature r).
Definition set_Year {T} (y : option Z) (r : Row T) : Row T :=
  mkRow (Region r) (Country r) (State r) (City r) y (Month r) (Day r)
        (AvgTemperature r).
Definition set_AvgTemperature {T} (t : T) (r : Row T) : Row T :=
  mkRow (Region r) (Country r) (State r) (City r) (Year r) (Month r) (Day r) t.

(** [df[col] = values]: the column is replaced cell by cell, in row order. *)
Fixpoint assign {T A} (set : A -> Row T -> Row T) (rows : list (Row T))
    (values : list A) : list (Row T) :=
  match rows, values with
  | r :: rows', v :: values' => set v r :: assign set rows' values'
  | _, _ => rows
  end.

(** ** The cleaning steps *)

(** [cities.set_index("name")["state"].to_dict()]: later rows overwrite
    earlier ones with the same name. *)
Definition city_to_state (cities : list CityRow) : gmap string (option string) :=
  foldl (fun m c => <[name c := state c]> m) ∅ cities.

(** [lambda row: city_to_state.get(row["City"], row["State"])] *)
Definition lookup_state {T} (m : gmap string (option string)) (row : Row T)
    : option string :=
  match m !! City row with
  | Some s => s
  | None => State row
  end.

(** [Series.fillna(value)] *)
Definition fillna {A} (value : A) (cell : option A) : option A :=
  match cell with
  | Some x => Some x
  | None => Some value
  end.

(** [Series.replace(0, 1)] on one cell. *)
Definition replace_0_1 (day : Z) : Z := if day =? 0 then 1 else day.

(** [lambda year: year if 1900 <= year <= 2024 else None]; a null year is
    a [NaN], which fails both comparisons. *)
Definition valid_year (year : option Z) : option Z :=
  match year with
  | Some y => if (1900 <=? y) && (y <=? 2024) then Some y else None
  | None => None
  end.

(** [fillna(method="ffill")]: a null takes the last non-null value above it. *)
Fixpoint ffill_from {A} (last : option A) (col : list (option A))
    : list (option A) :=
  match col with
  | [] => []
  | Some x :: rest => Some x :: ffill_from (Some x) rest
  | None :: rest => last :: ffill_from last rest
  end.
Definition ffill {A} (col : list (option A)) : list (option A) :=
  ffill_from None col.

(** [fillna(method="bfill")]: a null takes the first non-null value below
    it, which is what the filled cell right below it holds. *)
Fixpoint bfill {A} (col : list (option A)) : list (option A) :=
  match col with
  | [] => []
  | Some x :: rest => Some x :: bfill rest
  | None :: rest =>
      let rest' := bfill rest in
      match rest' with
      | next :: _ => next :: rest'
      | [] => [None]
      end
  end.

(** [(column - 32) * 5 / 9] on one cell. *)
Definition to_celsius {T} `{Arith T} (f : T) : T :=
  div (mul (sub f (lit 32)) (lit 5)) (lit 9).

(** The steps of [preprocess_temperature_data], each a function from the
    table before the statement to the table after it. *)
Section Steps.
Context {T : Type} `{Arith T}.

(* lines 30-32 *)
Definition step_State (m : gmap string (option string))
    (df : list (Row T)) : list (Row T) :=
  assign set_State df (lookup_state m <$> df).
(* line 33 *)
Definition step_State_fillna (df : list (Row T)) : list (Row T) :=
  assign set_State df (fillna "Unknown" <$> (State <$> df)).
(* line 36 *)
Definition step_Day (df : list (Row T)) : list (Row T) :=
  assign set_Day df (replace_0_1 <$> (Day <$> df)).
(* lines 37-39 *)
Definition step_Year (df : list (Row T)) : list (Row T) :=
  assign set_Year df (valid_year <$> (Year <$> df)).
(* line 40 *)
Definition step_Year_ffill (df : list (Row T)) : list (Row T) :=
  assign set_Year df (ffill (Year <$> df)).
(* line 41 *)
Definition step_Year_bfill (df : list (Row T)) : list (Row T) :=
  assign set_Year df (bfill (Year <$> df)).
(* line 44 *)
Definition step_AvgTemperature (df : list (Row T)) : list (Row T) :=
  assign set_AvgTemperature df (to_celsius <$> (AvgTemperature <$> df)).

(** The function as a map from the two argument tables to the returned
    table. *)
Definition preprocess_temperature_data (data : list (Row T))
    (cities : list CityRow) : list (Row T) :=
  let cleaned_data := data in
  let city_to_state := city_to_state cities in
  let cleaned_data := step_State city_to_state cleaned_data in
  let cleaned_data := step_State_fillna cleaned_data in
  let cleaned_data := step_Day cleaned_data in
  let cleaned_data := step_Year cleaned_data in
  let cleaned_data := step_Year_ffill cleaned_data in
  let cleaned_data := step_Year_bfill cleaned_data in
  let cleaned_data := step_AvgTemperature cleaned_data in
  cleaned_data.
End Steps.

(** ** The same function on a store of objects

    Python passes tables by reference.  A store maps references to the
    objects they denote; [data.copy()] allocates, column assignment and
    [fillna(..., inplace=True)] write through a reference. *)
Inductive object (T : Type) :=
  | DataFrame (rows : list (Row T))
  | CityFrame (rows : list CityRow).
Arguments DataFrame {T}.
Arguments CityFrame {T}.

Definition prog (T A : Type) : Type :=
  gmap nat (object T) -> option (A * gmap nat (object T)).

Definition ret {T A} (a : A) : prog T A := fun h => Some (a, h).
Definition bind {T A B} (m : prog T A) (k : A -> prog T B) : prog T B :=
  fun h => match m h with
           | Some (a, h') => k a h'
           | None => None
           end.

Declare Scope prog_scope.
Delimit Scope prog_scope with prog.
Notation "'let*' x ':=' m 'in' k" := (bind m (fun x => k))
  (at level 10, x name, m at level 100, k at level 200) : prog_scope.
Notation "m ';;;' k" := (bind m (fun _ => k))
  (at level 100, k at level 200, right associativity) : prog_scope.

(** [df.copy()]: a new object with the same rows. *)
Definition copy {T} (df : nat) : prog T nat :=
  fun h => match h !! df with
           | Some (DataFrame rows) =>
               let l := fresh (dom h) in
               Some (l, <[l := DataFrame rows]> h)
           | _ => None
           end.

(** Reading the reference table ([set_index] and [to_dict] build new
    objects and leave it alone). *)
Definition read_cities {T} (cities : nat) : prog T (list CityRow) :=
  fun h => match h !! cities with
           | Some (CityFrame rows) => Some (rows, h)
           | _ => None
           end.

(** A statement that rewrites the table behind [df] in place. *)
Definition update {T} (df : nat) (step : list (Row T) -> list (Row T))
    : prog T unit :=
  fun h => match h !! df with
           | Some (DataFrame rows) => Some (tt, <[df := DataFrame (step rows)]> h)
           | _ => None
           end.

Definition preprocess_temperature_data_on_store {T} `{Arith T}
    (data cities : nat) : prog T nat :=
  (let* cleaned_data := copy data in
   let* cities_rows := read_cities cities in
   let city_to_state := city_to_state cities_rows in
   update cleaned_data (step_State city_to_state);;;
   update cleaned_data step_State_fillna;;;
   update cleaned_data step_Day;;;
   update cleaned_data step_Year;;;
   update cleaned_data step_Year_ffill;;;
   update cleaned_data step_Year_bfill;;;
   update cleaned_data step_AvgTemperature;;;
   ret cleaned_data)%prog.

(** ** Aggregation

    Group means are taken over exact rationals: the properties proved about
    them concern grouping, ordering and selection, not rounding. *)

Definition Qsum (xs : list Q) : Q := foldr Qplus 0%Q xs.

(** [mean()] of a group, in lowest terms; groups are never empty. *)
Definition mean (xs : list Q) : Q :=
  Qred (Qsum xs / inject_Z (Z.of_nat (length xs))).

(** Stable ascending sort by insertion. *)
Fixpoint insert_sorted {A} (leb : A -> A -> bool) (x : A) (l : list A)
    : list A :=
  match l with
  | [] => [x]
  | y :: rest => if leb x y then x :: l else y :: insert_sorted leb x rest
  end.
Definition sort_by {A} (leb : A -> A -> bool) (l : list A) : list A :=
  foldr (insert_sorted leb) [] l.

(** The distinct values of a column, in order of first appearance. *)
Fixpoint unique {K} `{EqDecision K} (l : list K) : list K :=
  match l with
  | [] => []
  | x :: rest => x :: filter (fun y => y <> x) (unique rest)
  end.

(** [df.groupby(key)["AvgTemperature"].mean()]: one entry per key that
    occurs, in ascending key order ([sort=True] is the default). *)
Definition groupby_mean {K} `{EqDecision K} (leb : K -> K -> bool)
    (key : Row Q -> K) (df : list (Row Q)) : list (K * Q) :=
  (fun k => (k, mean (AvgTemperature <$> filter (fun r => key r = k) df)))
    <$> sort_by leb (unique (key <$> df)).

(** Lexicographic order on a two-column key. *)
Definition pair_leb (a b : string * Z) : bool :=
  if bool_decide (a.1 = b.1) then a.2 <=? b.2 else String.leb a.1 b.1.

(** [Series.sort_values()]: ascending by value. *)
Definition sort_values {K} (s : list (K * Q)) : list (K * Q) :=
  sort_by (fun a b => Qle_bool a.2 b.2) s.

(* lines 405-407 *)
Definition regional_avg_temp (cleaned_data : list (Row Q)) : list (string * Q) :=
  sort_values (groupby_mean String.leb Region cleaned_data).
(* lines 143-145 *)
Definition seasonal_data (data : list (Row Q)) : list ((string * Z) * Q) :=
  groupby_mean pair_leb (fun r => (Region r, Month r)) data.
(* line 153 *)
Definition region_data (seasonal : list ((string * Z) * Q)) (region : string)
    : list ((string * Z) * Q) :=
  filter (fun e => e.1.1 = region) seasonal.
(* line 295 *)
Definition avg_temps (data : list (Row Q)) : list (string * Q) :=
  groupby_mean String.leb Country data.

(** ** Extreme lookup *)

Inductive Mode := MIN | MAX.

(** Whether value [v] strictly improves on the best value so far. *)
Definition improves (mode : Mode) (v best : Q) : bool :=
  match mode with
  | MIN => negb (Qle_bool best v)
  | MAX => negb (Qle_bool v best)
  end.

(** [(s.idxmin(), s.min())], resp. [(s.idxmax(), s.max())]: one pass over
    the entries, keeping the first one that no later entry strictly
    improves on.  An empty series has no extreme (pandas raises). *)
Definition extreme {K} (mode : Mode) (s : list (K * Q)) : option (K * Q) :=
  match s with
  | [] => None
  | first :: rest =>
      Some (foldl (fun best e => if improves mode e.2 best.2 then e else best)
                  first rest)
  end.

(** [v] is at least as extreme as [w], resp. strictly more extreme. *)
Definition bounds (mode : Mode) (v w : Q) : Prop :=
  match mode with
  | MIN => (v <= w)%Q
  | MAX => (w <= v)%Q
  end.
Definition strictly_bounds (mode : Mode) (v w : Q) : Prop :=
  match mode with
  | MIN => (v < w)%Q
  | MAX => (w < v)%Q
  end.

(** ** Definitions that follow the specification's words *)

(** The inverse formula the specification names [celsius_to_fahrenheit]:
    [(c * 9/5) + 32], read as Python reads it. *)
Definition celsius_to_fahrenheit {T} `{Arith T} (c : T) : T :=
  add (div (mul c (lit 9)) (lit 5)) (lit 32).

(** A group-by whose entries come in the order in which the keys are first
    met ("insertion/group-discovery order"). *)
Definition groupby_mean_discovery {K} `{EqDecision K}
    (key : Row Q -> K) (df : list (Row Q)) : list (K * Q) :=
  (fun k => (k, mean (AvgTemperature <$> filter (fun r => key r = k) df)))
    <$> unique (key <$> df).

(** The row a raw row becomes, apart from its year (which depends on the
    rows around it). *)
Definition clean_row {T} `{Arith T} (m : gmap string (option string))
    (r : Row T) : Row T :=
  mkRow (Region r) (Country r) (fillna "Unknown"%string (lookup_state m r))
        (City r) (Year r) (Month r) (replace_0_1 (Day r))
        (to_celsius (AvgTemperature r)).

(** The [Year] column after lines 37-41. *)
Definition corrected_years (years : list (option Z)) : list (option Z) :=
  bfill (ffill (valid_year <$> years)).

(** ** Sample tables *)

(** The row of the specification's cleaning example, followed by two more. *)
Definition sample_data {T} `{Arith T} : list (Row T) :=
  [ mkRow "North America" "US" None "Springfield" (Some 2099) 1 0 (lit 32);
    mkRow "North America" "US" (Some "Ohio") "Dayton" (Some 2005) 1 2 (lit 50);
    mkRow "Asia" "Pakistan" None "Karachi" (Some 201) 7 31 (lit 95) ]%string.

Definition sample_cities : list CityRow :=
  [ mkCity "Springfield" (Some "Illinois") ]%string.

(** A reference table with a city whose state cell is empty. *)
Definition cities_without_state : list CityRow :=
  [ mkCity "Dayton" None ]%string.

(** The records of the specification's aggregation example; the
    temperatures are already in Celsius. *)
Definition region_example : list (Row Q) :=
  [ mkRow "Asia" "India" None "Delhi" (Some 2000) 1 1 10%Q;
    mkRow "Asia" "Japan" None "Tokyo" (Some 2000) 1 1 20%Q;
    mkRow "Europe" "Norway" None "Oslo" (Some 2000) 1 1 5%Q ]%string.

(** Two groups with the same mean, the one met first being the later one
    in key order (by month and by country). *)
Definition tie_example : list (Row Q) :=
  [ mkRow "Asia" "Pakistan" None "Karachi" (Some 2000) 7 1 30%Q;
    mkRow "Asia" "India" None "Delhi" (Some 2000) 1 1 30%Q ]%string.

(** Fahrenheit readings to one decimal, from -99.0 (the data set's marker
    for a missing value) to 130.0. *)
Definition readings : list float :=
  (fun k => (float_of_Z k / 10)%float) <$> seqZ (-990) 2291.

(** ** The charts

    Each plotting function is modelled by the data it hands to the drawing
    library: what is drawn, in which colour slot, and where the annotation
    points.  A function that raises returns [None]. *)

(** [enumerate(xs)], counting from [start]. *)
Fixpoint enumerate_from {A} (start : nat) (xs : list A) : list (nat * A) :=
  match xs with
  | [] => []
  | x :: rest => (start, x) :: enumerate_from (S start) rest
  end.
Definition enumerate {A} (xs : list A) : list (nat * A) := enumerate_from 0 xs.

(** [index.get_loc(label)] on an index without repeated labels: the
    position of the label, or a [KeyError]. *)
Fixpoint get_loc {K} `{EqDecision K} (label : K) (index : list K) : option nat :=
  match index with
  | [] => None
  | k :: rest => if decide (k = label) then Some 0%nat
                 else S <$> get_loc label rest
  end.

(** Lines 81-86: every selection other than "Min" takes the [else] branch. *)
Definition selected_mode (selection : string) : Mode :=
  if decide (selection = "Min"%string) then MIN else MAX.

(** Lines 81-89 of [plot_bar_chart]: the point [ann_xy] the annotation
    arrow is attached to, a bar position and a height. *)
Definition bar_annotation (selection : string) (series : list (string * Q))
    : option (nat * Q) :=
  match extreme (selected_mode selection) series with
  | Some (region, temp) =>
      (fun loc => (loc, temp)) <$> get_loc region series.*1
  | None => None
  end.

(** One line of the seasonal chart: its colour slot, its legend label, its
    points (month, mean) and the point annotated as highest. *)
Record SeasonalLine := mkSeasonalLine {
  line_color : nat;
  line_label : string;
  line_points : list (Z * Q);
  line_highest : Z * Q
}.

(** The body of the loop of [plot_seasonal_trends] (lines 152-179); a
    region without data is skipped. *)
Definition seasonal_line (seasonal : list ((string * Z) * Q))
    (entry : nat * string) : option SeasonalLine :=
  let region_data := region_data seasonal entry.2 in
  match region_data with
  | [] => None
  | _ :: _ =>
      (fun max_temp_row =>
         mkSeasonalLine entry.1 entry.2
           ((fun e => (e.1.2, e.2)) <$> region_data)
           (max_temp_row.1.2, max_temp_row.2))
        <$> extreme MAX region_data
  end.

(* lines 134-179 *)
Definition plot_seasonal_trends (data : list (Row Q)) (regions : list string)
    : list SeasonalLine :=
  omap (seasonal_line (seasonal_data data)) (enumerate regions).

(** One line of the city chart: its colour slot, its label, the rows it is
    drawn from and the row annotated as highest. *)
Record CityLine := mkCityLine {
  city_color : nat;
  city_label : string;
  city_rows : list (Row Q);
  city_highest : Row Q
}.

(** [rows.loc[rows["AvgTemperature"].idxmax()]]: the first row with the
    highest temperature; raises on an empty table. *)
Definition row_idxmax (rows : list (Row Q)) : option (Row Q) :=
  fst <$> extreme MAX ((fun r => (r, AvgTemperature r)) <$> rows).

(** The body of the loop of [plot_temperature_trends] (lines 239-261);
    there is no test for an empty [city_data]. *)
Definition city_line (selected_data : list (Row Q)) (entry : nat * string)
    : option CityLine :=
  let city_data := filter (fun r => City r = entry.2) selected_data in
  mkCityLine entry.1 entry.2 city_data <$> row_idxmax city_data.

(** Lines 217-261, for the year the user picked in the select box.  The
    assembly of the [Date] column (line 228) is not modelled: dates are the
    rows' [Year], [Month] and [Day]. *)
Definition plot_temperature_trends (data : list (Row Q)) (cities : list string)
    (selected_year : Z) : option (list CityLine) :=
  let selected_data := filter (fun r => City r ∈ cities) data in
  let selected_data :=
    filter (fun r => Year r = Some selected_year) selected_data in
  mapM (city_line selected_data) (enumerate cities).

(** [world.merge(avg_temps, left_on="ADMIN", right_on="Country",
    how="left")], keeping the name and the temperature: every row of the
    left table, once per matching row of the right table, or once with a
    null when nothing matches. *)
Definition merge_left (world : list string) (avg_temps : list (string * Q))
    : list (string * option Q) :=
  world ≫= (fun admin =>
    match filter (fun e => e.1 = admin) avg_temps with
    | [] => [(admin, None)]
    | matches => (fun e => (admin, Some e.2)) <$> matches
    end).

(** Lines 292-313 of [plot_global_heatmap], for the countries [world] of
    the map file: the coloured map and the annotated country. *)
Definition plot_global_heatmap (world : list string) (data : list (Row Q))
    : option (list (string * option Q) * (string * Q)) :=
  let avg_temps := avg_temps data in
  let world := merge_left world avg_temps in
  (fun highest_temp_country => (world, highest_temp_country))
    <$> extreme MAX avg_temps.

(** ** Colormaps *)

Definition hex_digit (d : Z) : Ascii.ascii :=
  match d with
  | 0 => "0" | 1 => "1" | 2 => "2" | 3 => "3" | 4 => "4" | 5 => "5"
  | 6 => "6" | 7 => "7" | 8 => "8" | 9 => "9" | 10 => "A" | 11 => "B"
  | 12 => "C" | 13 => "D" | 14 => "E" | _ => "F"
  end%char.

(** [f"{i:02X}"] for [0 <= i < 256]: two upper-case hexadecimal digits. *)
Definition format_02X (i : Z) : string :=
  String (hex_digit (i / 16)) (String (hex_digit (i mod 16)) EmptyString).

(** [range(start, stop, step)] for a positive step. *)
Definition py_range (start stop step : Z) : list Z :=
  (fun k => start + k * step) <$> seqZ 0 ((stop - start + step - 1) / step).

Definition seasonal_trends_cmap : list string :=
  ["#C77CFF"; "#FEA903"; "#C7E171"; "#FFDAB9"; "#CCE2CE"; "#FFF200";
   "#DCD0FF"]%string.
Definition temperature_trends_cmap : list string :=
  ["#C7E171"; "#C77CFF"; "#FEA903"; "#E0EAFF"]%string.
(* line 352 *)
Definition global_heatmap_colors : list string :=
  (fun i => ("#FEA9" +:+ format_02X i)%string) <$> py_range 16 256 24.

(** [mpl.colormaps.register(cmap=...)]: a name that is taken is refused. *)
Definition register (name : string) (colors : list string)
    (colormaps : gmap string (list string))
    : option (gmap string (list string)) :=
  match colormaps !! name with
  | Some _ => None
  | None => Some (<[name := colors]> colormaps)
  end.

(** [mpl.colormaps.unregister(name=...)], for a name that is not one of
    matplotlib's own. *)
Definition unregister (name : string) (colormaps : gmap string (list string))
    : gmap string (list string) :=
  delete name colormaps.

(* lines 341-361 *)
Definition generate_custom_color_maps (colormaps : gmap string (list string))
    : option (gmap string (list string)) :=
  let colormaps :=
    foldl (fun cm cmap_name =>
             if decide (is_Some (cm !! cmap_name)) then unregister cmap_name cm
             else cm)
          colormaps
          ["seasonal_trends"; "temperature_trends"; "global_heatmap"]%string in
  colormaps ← register "seasonal_trends" seasonal_trends_cmap colormaps;
  colormaps ← register "temperature_trends" temperature_trends_cmap colormaps;
  register "global_heatmap" global_heatmap_colors colormaps.

(** ** The page (lines 418-422) *)

(** [cleaned_data["Region"].unique()] *)
Definition region_options (cleaned_data : list (Row Q)) : list string :=
  unique (Region <$> cleaned_data).
(** [cleaned_data["Region"].unique()[:3]] *)
Definition default_regions (cleaned_data : list (Row Q)) : list string :=
  take 3 (region_options cleaned_data).

(** * Properties *)

(** ** Column assignment *)

Section AssignFacts.
Context {T A : Type}.
Implicit Types (set : A -> Row T -> Row T) (rows : list (Row T)).

Lemma assign_fmap set rows (f : Row T -> A) :
  assign set rows (f <$> rows) = (fun r => set (f r) r) <$> rows.
Proof. induction rows as [|r rows IH]; csimpl; [done|]. by rewrite IH. Qed.

Lemma length_assign set rows (values : list A) :
  length (assign set rows values) = length rows.
Proof.
  revert values; induction rows as [|r rows IH]; intros [|v values]; simpl;
    try done.
  by rewrite IH.
Qed.

Lemma assign_lookup set rows (values : list A) i r v :
  rows !! i = Some r -> values !! i = Some v ->
  assign set rows values !! i = Some (set v r).
Proof.
  revert values i; induction rows as [|r0 rows IH]; intros [|v0 values] [|i];
    simpl; try done.
  - by intros [= ->] [= ->].
  - apply IH.
Qed.

Lemma fmap_assign {B} (g : Row T -> B) set rows (values : list A) :
  (forall v r, g (set v r) = g r) ->
  g <$> assign set rows values = g <$> rows.
Proof.
  intros Hg. revert values; induction rows as [|r rows IH];
    intros [|v values]; simpl; try done.
  by rewrite Hg, IH.
Qed.

Lemma assign_assign set rows (v1 v2 : list A) :
  (forall a b r, set a (set b r) = set a r) ->
  length v1 = length rows -> length v2 = length rows ->
  assign set (assign set rows v1) v2 = assign set rows v2.
Proof.
  intros Hset. revert v1 v2; induction rows as [|r rows IH];
    intros [|a v1] [|b v2]; simpl; intros Hl1 Hl2; try done.
  by rewrite Hset, IH by lia.
Qed.

Lemma fmap_assign_comm (g : Row T -> Row T) set rows (values : list A) :
  (forall v r, g (set v r) = set v (g r)) ->
  g <$> assign set rows values = assign set (g <$> rows) values.
Proof.
  intros Hg. revert values; induction rows as [|r rows IH];
    intros [|v values]; simpl; try done.
  by rewrite Hg, IH.
Qed.
End AssignFacts.

Lemma Year_assign {T} (rows : list (Row T)) (years : list (option Z)) :
  length years = length rows ->
  Year <$> assign set_Year rows years = years.
Proof.
  revert years; induction rows as [|r rows IH]; intros [|y years]; simpl;
    try done.
  intros Hlen. by rewrite IH by lia.
Qed.

(** ** Filling *)

Lemma length_ffill_from {A} (last : option A) col :
  length (ffill_from last col) = length col.
Proof.
  revert last; induction col as [|[x|] col IH]; intros last; simpl;
    by rewrite ?IH.
Qed.

Lemma length_bfill {A} (col : list (option A)) :
  length (bfill col) = length col.
Proof.
  induction col as [|[x|] col IH]; simpl; [done|by rewrite IH|].
  destruct (bfill col) eqn:E; simpl in *; [by rewrite <- IH|by rewrite <- IH].
Qed.

Lemma length_corrected_years years :
  length (corrected_years years) = length years.
Proof.
  unfold corrected_years, ffill.
  by rewrite length_bfill, length_ffill_from, length_fmap.
Qed.

(** ** The pipeline, row by row *)

Section Pipeline.
Context {T : Type} `{Arith T}.
Implicit Types (data : list (Row T)) (cities : list CityRow).

Lemma step_State_eq (m : gmap string (option string)) data :
  step_State m data = (fun r => set_State (lookup_state m r) r) <$> data.
Proof. apply assign_fmap. Qed.

Lemma step_State_fillna_eq data :
  step_State_fillna data =
  (fun r => set_State (fillna "Unknown"%string (State r)) r) <$> data.
Proof.
  unfold step_State_fillna. rewrite <- list_fmap_compose. apply assign_fmap.
Qed.

Lemma step_Day_eq data :
  step_Day data = (fun r => set_Day (replace_0_1 (Day r)) r) <$> data.
Proof. unfold step_Day. rewrite <- list_fmap_compose. apply assign_fmap. Qed.

Lemma step_AvgTemperature_eq data :
  step_AvgTemperature data =
  (fun r => set_AvgTemperature (to_celsius (AvgTemperature r)) r) <$> data.
Proof.
  unfold step_AvgTemperature. rewrite <- list_fmap_compose. apply assign_fmap.
Qed.

(** The three year statements amount to one assignment of the corrected
    column. *)
Lemma step_Year_fill_eq data :
  step_Year_bfill (step_Year_ffill (step_Year data)) =
  assign set_Year data (corrected_years (Year <$> data)).
Proof.
  unfold step_Year_bfill, step_Year_ffill, step_Year, corrected_years.
  set (y1 := valid_year <$> (Year <$> data)).
  assert (Hl1 : length y1 = length data) by (unfold y1; by rewrite !length_fmap).
  rewrite (Year_assign data y1 Hl1).
  assert (Hl2 : length (ffill y1) = length data).
  { unfold ffill. by rewrite length_ffill_from. }
  rewrite (assign_assign set_Year data y1 (ffill y1)) by done.
  rewrite (Year_assign data (ffill y1) Hl2).
  rewrite (assign_assign set_Year data (ffill y1)); [done|done|done|].
  by rewrite length_bfill.
Qed.

(** Every column but [Year] is computed from the row alone; the [Year]
    column is the corrected one. *)
Lemma preprocess_rows data cities :
  preprocess_temperature_data data cities =
  assign set_Year (clean_row (city_to_state cities) <$> data)
         (corrected_years (Year <$> data)).
Proof.
  unfold preprocess_temperature_data.
  rewrite step_Year_fill_eq, step_AvgTemperature_eq.
  rewrite fmap_assign_comm by done.
  rewrite step_Day_eq, step_State_fillna_eq, step_State_eq.
  rewrite <- !list_fmap_compose. f_equal.
Qed.
End Pipeline.

(** ** Forward and backward fill, cell by cell *)

Section FillFacts.
Context {A : Type}.
Implicit Types (col : list (option A)) (last : option A).

Lemma ffill_from_tail last (c : option A) col i :
  ffill_from last (c :: col) !! S i =
  ffill_from (match c with Some x => Some x | None => last end) col !! i.
Proof. by destruct c. Qed.

(** A non-null cell is left alone. *)
Lemma ffill_from_keep last col i x :
  col !! i = Some (Some x) -> ffill_from last col !! i = Some (Some x).
Proof.
  revert last i; induction col as [|c col IH]; intros last [|i] Hi;
    simpl in Hi; try done.
  - by injection Hi as ->.
  - rewrite ffill_from_tail. by apply IH.
Qed.

(** Nulls at the very top take the value carried in. *)
Lemma ffill_from_lead last col i :
  (forall k, (k <= i)%nat -> col !! k = Some None) ->
  ffill_from last col !! i = Some last.
Proof.
  revert last i; induction col as [|c col IH]; intros last i Hk.
  - specialize (Hk 0%nat ltac:(lia)). done.
  - pose proof (Hk 0%nat ltac:(lia)) as H0. injection H0 as ->.
    destruct i as [|i]; [done|].
    rewrite ffill_from_tail. apply IH.
    intros k Hki. apply (Hk (S k)). lia.
Qed.

(** A null takes the nearest non-null value above it. *)
Lemma ffill_from_carry last col i j x :
  (j <= i)%nat -> col !! j = Some (Some x) ->
  (forall k, (j < k <= i)%nat -> col !! k = Some None) ->
  ffill_from last col !! i = Some (Some x).
Proof.
  revert last i j; induction col as [|c col IH]; intros last i j Hji Hj Hk;
    [done|].
  destruct j as [|j].
  - injection Hj as ->. destruct i as [|i]; [done|].
    rewrite ffill_from_tail. apply ffill_from_lead.
    intros k Hki. apply (Hk (S k)). lia.
  - destruct i as [|i]; [lia|].
    rewrite ffill_from_tail. apply (IH _ i j); [lia|done|].
    intros k Hki. apply (Hk (S k)). lia.
Qed.

Lemma bfill_tail (c : option A) col i :
  bfill (c :: col) !! S i = bfill col !! i.
Proof.
  destruct c as [x|]; simpl; [done|].
  by destruct (bfill col).
Qed.

Lemma bfill_keep col i x :
  col !! i = Some (Some x) -> bfill col !! i = Some (Some x).
Proof.
  revert i; induction col as [|c col IH]; intros [|i] Hi; simpl in Hi;
    try done.
  - by injection Hi as ->.
  - rewrite bfill_tail. by apply IH.
Qed.

(** A null takes the nearest non-null value below it. *)
Lemma bfill_carry col i j x :
  (i <= j)%nat -> col !! j = Some (Some x) ->
  (forall k, (i <= k < j)%nat -> col !! k = Some None) ->
  bfill col !! i = Some (Some x).
Proof.
  revert i j; induction col as [|c col IH]; intros i j Hij Hj Hk; [done|].
  destruct i as [|i].
  - destruct j as [|j].
    + by injection Hj as ->.
    + pose proof (Hk 0%nat ltac:(lia)) as H0. injection H0 as ->.
      assert (bfill col !! 0%nat = Some (Some x)) as Hhd.
      { apply (IH 0%nat j); [lia|done|].
        intros k Hkj. apply (Hk (S k)). lia. }
      simpl. destruct (bfill col) as [|next rest]; [done|].
      by injection Hhd as ->.
  - destruct j as [|j]; [lia|].
    rewrite bfill_tail. apply (IH i j); [lia|done|].
    intros k Hkj. apply (Hk (S k)). lia.
Qed.

(** Values are copied, never invented. *)
Lemma ffill_from_Forall (P : A -> Prop) last col :
  (forall x, last = Some x -> P x) ->
  Forall (fun o => forall x, o = Some x -> P x) col ->
  Forall (fun o => forall x, o = Some x -> P x) (ffill_from last col).
Proof.
  intros Hlast Hcol. revert last Hlast.
  induction Hcol as [|c col Hc Hcol IH]; intros last Hlast; simpl.
  - constructor.
  - destruct c as [x|]; constructor; try done.
    + apply IH. intros y [= <-]. by apply Hc.
    + by apply IH.
Qed.

Lemma bfill_Forall (P : A -> Prop) col :
  Forall (fun o => forall x, o = Some x -> P x) col ->
  Forall (fun o => forall x, o = Some x -> P x) (bfill col).
Proof.
  induction 1 as [|c col Hc Hcol IH]; simpl; [constructor|].
  destruct c as [x|]; [by constructor|].
  destruct (bfill col) as [|next rest] eqn:E.
  - by constructor.
  - constructor; [|done]. by inversion IH.
Qed.

(** Once a value is being carried, forward fill leaves no null. *)
Lemma ffill_from_all_Some last col :
  is_Some last -> Forall is_Some (ffill_from last col).
Proof.
  revert last; induction col as [|c col IH]; intros last Hlast; simpl.
  - constructor.
  - destruct c as [x|]; constructor; eauto.
Qed.

(** If the column has a value anywhere, forward fill ends on one. *)
Lemma ffill_from_last_Some last col :
  col <> [] -> is_Some last \/ Exists is_Some col ->
  exists x, List.last (ffill_from last col) None = Some x.
Proof.
  revert last; induction col as [|c col IH]; intros last Hne Hsome; [done|].
  destruct col as [|c' col].
  - destruct c as [x|]; simpl; [eauto|].
    destruct Hsome as [[x ->]|Hex]; [eauto|].
    rewrite Exists_cons, Exists_nil in Hex.
    destruct Hex as [[? [=]]|[]].
  - assert (forall l0 o, List.last (ffill_from l0 (o :: c' :: col)) None
                         = List.last (ffill_from
                             (match o with Some x => Some x | None => l0 end)
                             (c' :: col)) None) as Hstep.
    { intros l0 [x|]; simpl; by destruct c'. }
    rewrite Hstep. apply IH; [done|].
    destruct c as [x|]; [left; eauto|].
    destruct Hsome as [?|Hex]; [by left|].
    right. rewrite Exists_cons in Hex. by destruct Hex as [[? [=]]|?].
Qed.

(** A column that ends on a value has no null left after backward fill. *)
Lemma bfill_all_Some col x :
  List.last col None = Some x -> Forall is_Some (bfill col).
Proof.
  induction col as [|c col IH]; intros Hlast; [constructor|].
  destruct col as [|c' col].
  - simpl in Hlast. subst c. simpl. constructor; eauto.
  - assert (Forall is_Some (bfill (c' :: col))) as Hrest by (apply IH; done).
    destruct c as [y|]; [constructor; eauto|].
    change (bfill (None :: c' :: col)) with
      (match bfill (c' :: col) with
       | next :: _ => next :: bfill (c' :: col)
       | [] => [None]
       end).
    destruct (bfill (c' :: col)) as [|next rest] eqn:E.
    + pose proof (length_bfill (c' :: col)) as Hl. rewrite E in Hl. done.
    + constructor; [|done]. by inversion Hrest.
Qed.

(** A column without nulls, or with nothing but nulls, is left as it is. *)
Lemma ffill_from_id_Some last col :
  Forall is_Some col -> ffill_from last col = col.
Proof.
  intros Hcol; revert last; induction Hcol as [|c col [x ->] _ IH];
    intros last; simpl; [done|]. by rewrite IH.
Qed.

Lemma bfill_id_Some col : Forall is_Some col -> bfill col = col.
Proof.
  induction 1 as [|c col [x ->] _ IH]; simpl; [done|]. by rewrite IH.
Qed.

Lemma ffill_id_None col : Forall (eq None) col -> ffill col = col.
Proof.
  unfold ffill. induction 1 as [|c col <- _ IH]; simpl; [done|].
  by rewrite IH.
Qed.

Lemma bfill_id_None col : Forall (eq None) col -> bfill col = col.
Proof.
  induction 1 as [|c col <- Hcol IH]; simpl; [done|]. rewrite IH.
  destruct Hcol as [|? ? <-]; done.
Qed.
End FillFacts.

(** ** Year correction *)

Lemma valid_year_Some year y :
  valid_year year = Some y <-> year = Some y /\ 1900 <= y <= 2024.
Proof.
  unfold valid_year. destruct year as [z|].
  - destruct (1900 <=? z) eqn:E1, (z <=? 2024) eqn:E2; simpl; split;
      first [ intros [= <-]; split; [done|lia]
            | intros [[= <-] ?]; first [done | lia]
            | intros [=] ].
  - split; [intros [=] | intros [[=] _]].
Qed.

Lemma valid_year_in_range y :
  1900 <= y <= 2024 -> valid_year (Some y) = Some y.
Proof. intros Hy. by apply valid_year_Some. Qed.

Lemma corrected_years_in_range years :
  Forall (fun o => forall y, o = Some y -> 1900 <= y <= 2024)
         (corrected_years years).
Proof.
  unfold corrected_years, ffill.
  apply bfill_Forall, ffill_from_Forall; [done|].
  apply Forall_fmap, Forall_forall. intros o _ y Hy.
  by apply valid_year_Some in Hy as [_ ?].
Qed.

Lemma corrected_years_all_Some years :
  Exists (fun o => exists y, o = Some y /\ 1900 <= y <= 2024) years ->
  Forall is_Some (corrected_years years).
Proof.
  intros Hex. unfold corrected_years, ffill.
  destruct (ffill_from_last_Some None (valid_year <$> years)) as [x Hx].
  - destruct Hex; done.
  - right. apply Exists_fmap. eapply Exists_impl; [exact Hex|].
    intros o (y & -> & Hy). exists y. by apply valid_year_in_range.
  - by apply bfill_all_Some with x.
Qed.

(** After both fills a column has no null at all, or nothing but nulls. *)
Lemma fill_cases (col : list (option Z)) :
  Forall is_Some (bfill (ffill col)) \/ Forall (eq None) (bfill (ffill col)).
Proof.
  destruct (decide (Forall (eq None) col)) as [Hnone|Hsome].
  - right. rewrite ffill_id_None by done. by rewrite bfill_id_None.
  - left. apply not_Forall_Exists in Hsome; [|apply _].
    destruct (ffill_from_last_Some None col) as [x Hx].
    + destruct Hsome; done.
    + right. eapply Exists_impl; [exact Hsome|].
      intros [y|] Hy; [eauto|]. by destruct Hy.
    + by apply bfill_all_Some with x.
Qed.

(** Correcting a corrected column changes nothing. *)
Lemma corrected_years_idem years :
  corrected_years (corrected_years years) = corrected_years years.
Proof.
  assert (valid_year <$> corrected_years years = corrected_years years) as Hv.
  { pose proof (corrected_years_in_range years) as Hr.
    induction Hr as [|o col Ho _ IH]; csimpl; [done|]. rewrite IH. f_equal.
    destruct o as [y|]; [|done]. apply valid_year_in_range. by apply Ho. }
  unfold corrected_years at 1. rewrite Hv.
  destruct (fill_cases (valid_year <$> years)) as [Hsome|Hnone];
    fold (corrected_years years) in *.
  - unfold ffill. rewrite ffill_from_id_Some by done. by apply bfill_id_Some.
  - rewrite ffill_id_None by done. by apply bfill_id_None.
Qed.

(** ** The cleaned table *)

Section Cleaning.
Context {T : Type} `{Arith T}.
Implicit Types (data : list (Row T)) (cities : list CityRow).

Lemma length_preprocess data cities :
  length (preprocess_temperature_data data cities) = length data.
Proof. by rewrite preprocess_rows, length_assign, length_fmap. Qed.

Lemma Year_preprocess data cities :
  Year <$> preprocess_temperature_data data cities =
  corrected_years (Year <$> data).
Proof.
  rewrite preprocess_rows. apply Year_assign.
  by rewrite length_corrected_years, !length_fmap.
Qed.

(** Row [i] of the result is row [i] of the input, cleaned, with cell [i]
    of the corrected year column. *)
Lemma preprocess_lookup data cities i r :
  data !! i = Some r ->
  exists y, corrected_years (Year <$> data) !! i = Some y /\
    preprocess_temperature_data data cities !! i =
    Some (set_Year y (clean_row (city_to_state cities) r)).
Proof.
  intros Hr.
  destruct (lookup_lt_is_Some_2 (corrected_years (Year <$> data)) i) as [y Hy].
  { rewrite length_corrected_years, length_fmap. by eapply lookup_lt_Some. }
  exists y. split; [done|]. rewrite preprocess_rows.
  apply assign_lookup; [|done]. by rewrite list_lookup_fmap, Hr.
Qed.

Lemma preprocess_elem data cities r' :
  r' ∈ preprocess_temperature_data data cities ->
  exists i r y, data !! i = Some r /\
    corrected_years (Year <$> data) !! i = Some y /\
    r' = set_Year y (clean_row (city_to_state cities) r).
Proof.
  intros [i Hi]%list_elem_of_lookup.
  destruct (lookup_lt_is_Some_2 data i) as [r Hr].
  { rewrite <- (length_preprocess data cities). by eapply lookup_lt_Some. }
  destruct (preprocess_lookup data cities i r Hr) as (y & Hy & Hout).
  exists i, r, y. repeat split; try done. congruence.
Qed.
End Cleaning.

Section CleaningClaims.
Context {T : Type} `{Arith T}.
Implicit Types (data : list (Row T)) (cities : list CityRow).

(** C1.  If every [Day] of the input is 0 or lies in [1,31], and at least
    one [Year] of the input lies in [1900,2024], then every row of the
    cleaned table has a non-null [State], a [Day] in [1,31] and a [Year] in
    [1900,2024]. *)
Theorem cleaned_records_invariant data cities :
  Forall (fun r => Day r = 0 \/ 1 <= Day r <= 31) data ->
  Exists (fun r => exists y, Year r = Some y /\ 1900 <= y <= 2024) data ->
  Forall (fun r => (exists s, State r = Some s) /\
                   1 <= Day r <= 31 /\
                   exists y, Year r = Some y /\ 1900 <= y <= 2024)
         (preprocess_temperature_data data cities).
Proof.
  intros Hday Hyear. apply Forall_forall. intros r' Hr'.
  apply preprocess_elem in Hr' as (i & r & y & Hr & Hy & ->).
  split; [|split]; simpl.
  - unfold fillna. destruct (lookup_state _ r); eauto.
  - rewrite Forall_forall in Hday.
    specialize (Hday r (list_elem_of_lookup_2 _ _ _ Hr)).
    unfold replace_0_1. destruct (Z.eqb_spec (Day r) 0); lia.
  - assert (Forall is_Some (corrected_years (Year <$> data))) as Hall.
    { apply corrected_years_all_Some, Exists_fmap.
      eapply Exists_impl; [exact Hyear|]. intros r0 (z & Hz & ?); simpl. eauto. }
    rewrite Forall_forall in Hall.
    destruct (Hall y (list_elem_of_lookup_2 _ _ _ Hy)) as [z ->].
    exists z. split; [done|].
    pose proof (corrected_years_in_range (Year <$> data)) as Hr'.
    rewrite Forall_forall in Hr'.
    by apply (Hr' (Some z) (list_elem_of_lookup_2 _ _ _ Hy)).
Qed.

(** C2, as the code has it.  The state of a cleaned row is: the reference
    table's state when the row's city is a key of the reference table with
    a non-null state (whatever state the row had); "Unknown" when the city
    is a key whose reference state is null, or when the city is absent and
    the row's state is null; the row's own state when the city is absent
    and that state is non-null. *)
Theorem state_resolution data cities i r :
  data !! i = Some r ->
  exists r', preprocess_temperature_data data cities !! i = Some r' /\
    (forall s, city_to_state cities !! City r = Some (Some s) ->
               State r' = Some s) /\
    (city_to_state cities !! City r = Some None ->
     State r' = Some "Unknown"%string) /\
    (city_to_state cities !! City r = None -> State r = None ->
     State r' = Some "Unknown"%string) /\
    (forall s, city_to_state cities !! City r = None -> State r = Some s ->
               State r' = Some s).
Proof.
  intros Hr. destruct (preprocess_lookup data cities i r Hr) as (y & _ & Hout).
  eexists. split; [exact Hout|]. simpl. unfold lookup_state.
  repeat split.
  - by intros s ->.
  - by intros ->.
  - by intros -> ->.
  - by intros s -> ->.
Qed.

(** C9.  The cleaned table has as many rows as the input, in the same
    order, and its [Region], [Country], [City] and [Month] columns are those
    of the input. *)
Theorem rows_and_other_columns_kept data cities :
  let cleaned_data := preprocess_temperature_data data cities in
  length cleaned_data = length data /\
  Region <$> cleaned_data = Region <$> data /\
  Country <$> cleaned_data = Country <$> data /\
  City <$> cleaned_data = City <$> data /\
  Month <$> cleaned_data = Month <$> data.
Proof.
  simpl. split; [apply length_preprocess|].
  rewrite preprocess_rows.
  rewrite !fmap_assign by done. rewrite <- !list_fmap_compose. done.
Qed.

(** C4, as the code has it.  For a table with at least one year in
    [1900,2024] the first run returns a table without a null year, and a
    second run on it leaves [State], [Day], [Year] and every other column
    of the first run's result as they are and converts the temperature
    column once more. *)
Theorem second_run_converts_again data cities :
  Exists (fun r => exists y, Year r = Some y /\ 1900 <= y <= 2024) data ->
  Forall (fun r => is_Some (Year r))
         (preprocess_temperature_data data cities) /\
  preprocess_temperature_data (preprocess_temperature_data data cities) cities
  = (fun r => set_AvgTemperature (to_celsius (AvgTemperature r)) r)
      <$> preprocess_temperature_data data cities.
Proof.
  intros Hvalid. split.
  { assert (Forall is_Some
              (Year <$> preprocess_temperature_data data cities)) as Hcol.
    { rewrite Year_preprocess. apply corrected_years_all_Some, Exists_fmap.
      eapply Exists_impl; [exact Hvalid|]. intros r (y & Hy & ?). simpl. eauto. }
    apply Forall_forall. intros r Hr. rewrite Forall_forall in Hcol.
    apply Hcol, list_elem_of_fmap. by exists r. }
  rewrite (preprocess_rows (preprocess_temperature_data data cities)).
  rewrite Year_preprocess, corrected_years_idem.
  rewrite preprocess_rows.
  assert (Hlen : length (corrected_years (Year <$> data))
                 = length (clean_row (city_to_state cities) <$> data)).
  { by rewrite length_corrected_years, !length_fmap. }
  rewrite !fmap_assign_comm by done.
  rewrite assign_assign
    by (try done; by rewrite length_corrected_years, !length_fmap).
  f_equal. rewrite <- !list_fmap_compose. apply list_fmap_ext.
  intros j r _. simpl. unfold set_AvgTemperature, clean_row. simpl.
  f_equal.
  - unfold lookup_state. simpl.
    destruct (city_to_state cities !! City r) as [s|]; [done|].
    by destruct (State r).
  - unfold replace_0_1. destruct (Day r =? 0) eqn:E; [done|by rewrite E].
Qed.
End CleaningClaims.

Lemma cleaned_records_invariant_witness :
  Forall (fun r : Row Q =>
            (exists s, State r = Some s) /\ 1 <= Day r <= 31 /\
            exists y, Year r = Some y /\ 1900 <= y <= 2024)
         (preprocess_temperature_data sample_data sample_cities).
Proof.
  apply cleaned_records_invariant.
  - repeat (apply Forall_cons; split; [simpl; lia|]). apply Forall_nil_2.
  - apply Exists_cons_tl, Exists_cons_hd. exists 2005. simpl.
    split; [reflexivity|lia].
Defined.

Lemma state_resolution_witness :
  exists r' : Row Q,
    preprocess_temperature_data sample_data sample_cities !! 0%nat = Some r' /\
    State r' = Some "Illinois"%string.
Proof.
  destruct (state_resolution (T:=Q) sample_data sample_cities 0%nat _ eq_refl)
    as (r' & Hout & Href & _).
  exists r'. split; [exact Hout|]. apply Href. reflexivity.
Defined.

(** C2, as stated, fails: Dayton is a key of the reference table, its
    reference state is null, and the cleaned row holds "Unknown" although
    the raw row held "Ohio". *)
Lemma reference_state_may_be_null :
  ~ (forall (data : list (Row Q)) (cities : list CityRow) i r r' s,
       data !! i = Some r ->
       preprocess_temperature_data data cities !! i = Some r' ->
       city_to_state cities !! City r = Some s ->
       State r' = s).
Proof.
  intros Hclaim.
  specialize (Hclaim sample_data cities_without_state 1%nat _ _ None
                     eq_refl eq_refl eq_refl).
  vm_compute in Hclaim. discriminate Hclaim.
Qed.

(** C4, as stated, fails: on the sample table the first run turns 32 F into
    0 C and a second run turns that 0 into -17.77... *)
Lemma second_run_changes_temperature :
  preprocess_temperature_data
    (preprocess_temperature_data (T:=float) sample_data sample_cities)
    sample_cities
  <> preprocess_temperature_data sample_data sample_cities.
Proof.
  intros Heq.
  apply (f_equal (fun df => match AvgTemperature <$> df with
                            | t :: _ => PrimFloat.eqb t 0
                            | [] => false
                            end)) in Heq.
  vm_compute in Heq. discriminate Heq.
Qed.

Lemma second_run_converts_again_witness :
  Forall (fun r : Row Q => is_Some (Year r))
         (preprocess_temperature_data sample_data sample_cities) /\
  preprocess_temperature_data
    (preprocess_temperature_data (T:=Q) sample_data sample_cities)
    sample_cities
  = (fun r => set_AvgTemperature (to_celsius (AvgTemperature r)) r)
      <$> preprocess_temperature_data sample_data sample_cities.
Proof.
  apply second_run_converts_again.
  apply Exists_cons_tl, Exists_cons_hd. exists 2005. simpl.
  split; [reflexivity|lia].
Defined.

(** C3.  Years outside [1900,2024] are nulled; a null then takes the
    nearest valid year above it in row order, and a null with no valid year
    above it takes the nearest valid year below it; the [Year] column of the
    cleaned table is the column so corrected. *)
Theorem year_correction (years : list (option Z)) :
  let nulled := valid_year <$> years in
  let filled := bfill (ffill nulled) in
  (forall T (HT : Arith T) (data : list (Row T)) cities,
     Year <$> preprocess_temperature_data data cities =
     bfill (ffill (valid_year <$> (Year <$> data)))) /\
  (forall i y, years !! i = Some (Some y) ->
     nulled !! i =
     Some (if bool_decide (1900 <= y <= 2024) then Some y else None)) /\
  (forall i, years !! i = Some None -> nulled !! i = Some None) /\
  (forall i j y, (j <= i)%nat -> nulled !! j = Some (Some y) ->
     (forall k, (j < k <= i)%nat -> nulled !! k = Some None) ->
     filled !! i = Some (Some y)) /\
  (forall i j y, (i < j)%nat -> nulled !! j = Some (Some y) ->
     (forall k, (k < j)%nat -> nulled !! k = Some None) ->
     filled !! i = Some (Some y)) /\
  bfill (ffill [None; Some 2005; None; None; Some 2010])
  = [Some 2005; Some 2005; Some 2005; Some 2005; Some 2010].
Proof.
  simpl. repeat split.
  - intros T HT data cities. apply Year_preprocess.
  - intros i y Hi. rewrite list_lookup_fmap, Hi. simpl. f_equal.
    case_bool_decide as Hy.
    + destruct (Z.leb_spec 1900 y), (Z.leb_spec y 2024); simpl; try done; lia.
    + destruct (Z.leb_spec 1900 y), (Z.leb_spec y 2024); simpl; try done.
      exfalso. apply Hy. lia.
  - intros i Hi. by rewrite list_lookup_fmap, Hi.
  - intros i j y Hji Hj Hk. apply bfill_keep.
    by apply ffill_from_carry with j.
  - intros i j y Hij Hj Hk. apply bfill_carry with j; [lia| |].
    + by apply ffill_from_keep.
    + intros k Hkj. unfold ffill. apply ffill_from_lead.
      intros k' Hk'. apply Hk. lia.
Qed.

(** ** Unit conversion *)

#[local] Set Warnings "-inexact-float".

Lemma AvgTemperature_preprocess {T} `{Arith T} (data : list (Row T)) cities :
  AvgTemperature <$> preprocess_temperature_data data cities =
  to_celsius <$> (AvgTemperature <$> data).
Proof.
  rewrite preprocess_rows, fmap_assign by done.
  by rewrite <- !list_fmap_compose.
Qed.

(** Over the rationals the formula [(c * 9/5) + 32] undoes the
    conversion. *)
Lemma round_trip_exact_over_rationals (f : Q) :
  (celsius_to_fahrenheit (to_celsius f) == f)%Q.
Proof. unfold celsius_to_fahrenheit, to_celsius. simpl. field. Qed.

(** In binary64 each of the six operations rounds, and the result need not
    be the input bit for bit: from 0.1 the inverse formula gives
    0.10000000000000142. *)
Lemma round_trip_rounds_in_binary64 :
  (celsius_to_fahrenheit (to_celsius 0.1) =? 0.1)%float = false /\
  (abs (celsius_to_fahrenheit (to_celsius 0.1) - 0.1) <? 1e-14)%float = true.
Proof. split; vm_compute; reflexivity. Qed.

(** At the readings from -99.0 to 130.0 in steps of 0.1 the binary64
    round trip stays within 1e-13 of the input. *)
Lemma round_trip_binary64_readings :
  Forall (fun f =>
            (abs (celsius_to_fahrenheit (to_celsius f) - f) <? 1e-13)%float
            = true) readings.
Proof.
  apply Forall_forall. intros f Hf.
  assert (forallb (fun f =>
            (abs (celsius_to_fahrenheit (to_celsius f) - f) <? 1e-13)%float)
            readings = true) as Hall by (vm_compute; reflexivity).
  rewrite forallb_forall in Hall. apply Hall. by apply list_elem_of_In.
Qed.

(** ** The arguments are left alone *)

Section Store.
Context {T : Type} `{Arith T}.
Implicit Types (h : gmap nat (object T)).

Lemma update_insert h l rows (step : list (Row T) -> list (Row T)) :
  update l step (<[l := DataFrame rows]> h)
  = Some (tt, <[l := DataFrame (step rows)]> h).
Proof. unfold update. by rewrite lookup_insert_eq, insert_insert_eq. Qed.

(** C10.  Run on a store that holds the two argument tables, the function
    returns a reference that was free before the call; the store after the
    call holds the cleaned table there, and holds at every other reference,
    the two arguments included, what it held before. *)
Theorem arguments_not_mutated h data cities rows city_rows :
  h !! data = Some (DataFrame rows) ->
  h !! cities = Some (CityFrame city_rows) ->
  exists cleaned_data h',
    preprocess_temperature_data_on_store data cities h
      = Some (cleaned_data, h') /\
    h' !! data = Some (DataFrame rows) /\
    h' !! cities = Some (CityFrame city_rows) /\
    h !! cleaned_data = None /\
    h' !! cleaned_data
      = Some (DataFrame (preprocess_temperature_data rows city_rows)) /\
    forall l, l <> cleaned_data -> h' !! l = h !! l.
Proof.
  intros Hdata Hcities.
  set (l := fresh (dom h)).
  assert (h !! l = None) as Hfresh.
  { apply not_elem_of_dom, is_fresh. }
  assert (l <> data) as Hd by congruence.
  assert (l <> cities) as Hc by congruence.
  exists l, (<[l := DataFrame (preprocess_temperature_data rows city_rows)]> h).
  split; [|repeat split].
  - unfold preprocess_temperature_data_on_store, bind, copy.
    rewrite Hdata. fold l. unfold read_cities.
    rewrite lookup_insert_ne, Hcities by done.
    rewrite !update_insert. reflexivity.
  - by rewrite lookup_insert_ne.
  - by rewrite lookup_insert_ne.
  - done.
  - by rewrite lookup_insert_eq.
  - intros l' Hl'. by rewrite lookup_insert_ne.
Qed.
End Store.

Lemma arguments_not_mutated_witness :
  let h : gmap nat (object Q) :=
    {[ 0%nat := DataFrame sample_data; 1%nat := CityFrame sample_cities ]} in
  exists cleaned_data h',
    preprocess_temperature_data_on_store 0%nat 1%nat h
      = Some (cleaned_data, h') /\
    h' !! 0%nat = Some (DataFrame sample_data) /\
    h' !! 1%nat = Some (CityFrame sample_cities).
Proof.
  intros h.
  destruct (arguments_not_mutated h 0%nat 1%nat sample_data sample_cities
              eq_refl eq_refl)
    as (l & h' & Hrun & Hdata & Hcities & _).
  exists l, h'. repeat split; assumption.
Defined.

(** ** Sorting *)

Section Sorting.
Context {A : Type} (leb : A -> A -> bool).
Hypothesis leb_total : forall a b, leb a b = false -> leb b a = true.

Lemma insert_sorted_perm x (l : list A) : insert_sorted leb x l ≡ₚ x :: l.
Proof.
  induction l as [|y l IH]; simpl; [done|].
  destruct (leb x y); [done|]. rewrite IH. apply Permutation_swap.
Qed.

Lemma sort_by_perm (l : list A) : sort_by leb l ≡ₚ l.
Proof.
  induction l as [|x l IH]; simpl; [done|].
  by rewrite insert_sorted_perm, IH.
Qed.

Lemma insert_sorted_Sorted x (l : list A) :
  Sorted (fun a b => leb a b = true) l ->
  Sorted (fun a b => leb a b = true) (insert_sorted leb x l).
Proof.
  induction 1 as [|y l Hl IH Hhd]; simpl.
  - repeat constructor.
  - destruct (leb x y) eqn:E.
    + constructor; [by constructor|by constructor].
    + constructor; [done|].
      destruct Hhd as [|z l' Hyz]; simpl.
      * constructor. by apply leb_total.
      * destruct (leb x z); constructor; [by apply leb_total|done].
Qed.

Lemma sort_by_Sorted (l : list A) :
  Sorted (fun a b => leb a b = true) (sort_by leb l).
Proof.
  induction l as [|x l IH]; simpl; [constructor|].
  by apply insert_sorted_Sorted.
Qed.
End Sorting.

Lemma Sorted_weaken {A} (R R' : A -> A -> Prop) (l : list A) :
  (forall a b, R a b -> R' a b) -> Sorted R l -> Sorted R' l.
Proof.
  intros HR. induction 1 as [|x l Hl IH Hhd]; constructor; [done|].
  destruct Hhd; constructor; auto.
Qed.

Lemma Qle_bool_total (a b : Q) : Qle_bool a b = false -> Qle_bool b a = true.
Proof.
  intros Hab. apply Qle_bool_iff.
  destruct (Qlt_le_dec b a) as [Hlt|Hle]; [lra|].
  apply Qle_bool_iff in Hle. congruence.
Qed.

Lemma String_leb_total (a b : string) :
  String.leb a b = false -> String.leb b a = true.
Proof. intros Hab. destruct (String.leb_total a b); congruence. Qed.

Lemma pair_leb_total (a b : string * Z) :
  pair_leb a b = false -> pair_leb b a = true.
Proof.
  unfold pair_leb. intros Hab.
  case_bool_decide as Hfst.
  - rewrite bool_decide_eq_true_2 by done. lia.
  - rewrite bool_decide_eq_false_2 by done. by apply String_leb_total.
Qed.

(** A series sorted by value has every entry below all later ones. *)
Lemma sort_values_StronglySorted {K} (s : list (K * Q)) :
  StronglySorted (fun a b => (a.2 <= b.2)%Q) (sort_values s).
Proof.
  apply Sorted_StronglySorted.
  - intros a b c Hab Hbc. lra.
  - unfold sort_values.
    eapply Sorted_weaken; [|apply sort_by_Sorted].
    + intros a b. apply Qle_bool_iff.
    + intros a b. apply Qle_bool_total.
Qed.

(** ** Group means *)

Lemma elem_of_unique {K} `{EqDecision K} (l : list K) x :
  x ∈ unique l <-> x ∈ l.
Proof.
  induction l as [|y l IH]; simpl; [done|].
  rewrite !elem_of_cons, list_elem_of_filter, IH.
  destruct (decide (x = y)); tauto.
Qed.

Lemma NoDup_unique {K} `{EqDecision K} (l : list K) : NoDup (unique l).
Proof.
  induction l as [|y l IH]; simpl; [constructor|].
  constructor; [|by apply NoDup_filter].
  rewrite list_elem_of_filter. intros [Hne _]. by apply Hne.
Qed.

Section GroupBy.
Context {K : Type} `{EqDecision K} (leb : K -> K -> bool) (key : Row Q -> K).
Implicit Types (df : list (Row Q)).

Lemma groupby_mean_keys df :
  (groupby_mean leb key df).*1 = sort_by leb (unique (key <$> df)).
Proof.
  unfold groupby_mean. rewrite <- list_fmap_compose.
  rewrite <- (list_fmap_id (sort_by _ _)) at 2. by apply list_fmap_ext.
Qed.

Lemma groupby_mean_keys_perm df :
  (groupby_mean leb key df).*1 ≡ₚ unique (key <$> df).
Proof. rewrite groupby_mean_keys. apply sort_by_perm. Qed.

Lemma groupby_mean_elem df k m :
  (k, m) ∈ groupby_mean leb key df <->
  k ∈ key <$> df /\
  m = mean (AvgTemperature <$> filter (fun r => key r = k) df).
Proof.
  unfold groupby_mean. rewrite list_elem_of_fmap. split.
  - intros (k' & Heq & Hk'). simpl in Heq. injection Heq as -> ->.
    split; [|done].
    rewrite sort_by_perm in Hk'. by apply (proj1 (elem_of_unique _ _)).
  - intros [Hk ->]. exists k. split; [done|].
    rewrite sort_by_perm. by apply elem_of_unique.
Qed.

Lemma group_nonempty df k :
  k ∈ key <$> df -> filter (fun r => key r = k) df <> [].
Proof.
  intros (r & -> & Hr)%list_elem_of_fmap Hnil.
  assert (r ∈ filter (fun r0 => key r0 = key r) df) as Hin.
  { by apply list_elem_of_filter. }
  rewrite Hnil in Hin. by apply not_elem_of_nil in Hin.
Qed.
End GroupBy.

(** C6.  The summary has exactly one entry per key that occurs in the
    table, and the value of key [k] is the sum of the temperatures of the
    rows carrying [k] divided by their number, a non-empty group; the three
    records of the example give Asia 15 and Europe 5. *)
Theorem groupby_mean_is_group_mean :
  (forall K (HK : EqDecision K) (leb : K -> K -> bool) (key : Row Q -> K)
          (df : list (Row Q)),
     let summary := groupby_mean leb key df in
     NoDup summary.*1 /\
     (forall k, k ∈ summary.*1 <-> k ∈ key <$> df) /\
     (forall k m, (k, m) ∈ summary ->
        let group := filter (fun r => key r = k) df in
        group <> [] /\
        (m == Qsum (AvgTemperature <$> group)
              / inject_Z (Z.of_nat (length group)))%Q)) /\
  groupby_mean String.leb Region region_example
  = [("Asia", 15%Q); ("Europe", 5%Q)]%string.
Proof.
  split; [|vm_compute; reflexivity].
  intros K HK leb key df. simpl. split; [|split].
  - rewrite groupby_mean_keys_perm. apply NoDup_unique.
  - intros k. rewrite groupby_mean_keys_perm. apply elem_of_unique.
  - intros k m [Hk ->]%groupby_mean_elem. split.
    + by apply group_nonempty.
    + unfold mean. rewrite Qred_correct, length_fmap. reflexivity.
Qed.

(** C8.  The regional summary computed from a cleaned table is in ascending
    order of mean: every entry is at most every later entry. *)
Theorem regional_summary_sorted (data : list (Row Q)) (cities : list CityRow) :
  StronglySorted (fun a b => (a.2 <= b.2)%Q)
    (regional_avg_temp (preprocess_temperature_data data cities)).
Proof. apply sort_values_StronglySorted. Qed.

(** ** Extreme lookup *)

Lemma improves_spec mode v w :
  improves mode v w = true <-> strictly_bounds mode v w.
Proof.
  destruct mode; simpl; rewrite negb_true_iff;
    (split; [intros Hb | intros Hlt]).
  - destruct (Qlt_le_dec v w) as [|Hle]; [done|].
    apply Qle_bool_iff in Hle. congruence.
  - destruct (Qle_bool w v) eqn:E; [|done]. apply Qle_bool_iff in E. lra.
  - destruct (Qlt_le_dec w v) as [|Hle]; [done|].
    apply Qle_bool_iff in Hle. congruence.
  - destruct (Qle_bool v w) eqn:E; [|done]. apply Qle_bool_iff in E. lra.
Qed.

Lemma not_improves_spec mode v w :
  improves mode v w = false <-> bounds mode w v.
Proof.
  destruct mode; simpl; rewrite negb_false_iff; apply Qle_bool_iff.
Qed.

Lemma strictly_bounds_trans mode u v w :
  strictly_bounds mode u v -> bounds mode v w -> strictly_bounds mode u w.
Proof. destruct mode; simpl; lra. Qed.

Lemma strictly_bounds_weak mode v w :
  strictly_bounds mode v w -> bounds mode v w.
Proof. destruct mode; simpl; lra. Qed.

Lemma bounds_refl mode v : bounds mode v v.
Proof. destruct mode; simpl; lra. Qed.

Lemma bounds_trans mode u v w :
  bounds mode u v -> bounds mode v w -> bounds mode u w.
Proof. destruct mode; simpl; lra. Qed.

Section Scan.
Context {K : Type} (mode : Mode).
Implicit Types (best e : K * Q) (rest s : list (K * Q)).

(** The scan ends on the entry it started from, which then bounds all the
    others, or on the first later entry that bounds them all. *)
Lemma scan_spec best rest :
  let r := foldl (fun b e => if improves mode e.2 b.2 then e else b)
                 best rest in
  bounds mode r.2 best.2 /\
  (forall e, e ∈ rest -> bounds mode r.2 e.2) /\
  (r = best \/
   exists i, rest !! i = Some r /\ strictly_bounds mode r.2 best.2 /\
     forall j e, (j < i)%nat -> rest !! j = Some e ->
                 strictly_bounds mode r.2 e.2).
Proof.
  revert best; induction rest as [|x rest IH]; intros best; simpl.
  { split; [apply bounds_refl|]. split; [|by left].
    intros e He. by apply not_elem_of_nil in He. }
  destruct (improves mode x.2 best.2) eqn:E.
  - apply improves_spec in E.
    destruct (IH x) as (Hrx & Hall & Hwhere). simpl in *.
    split; [|split].
    + eapply bounds_trans; [exact Hrx|]. by apply strictly_bounds_weak.
    + intros e [->|He]%elem_of_cons; [done|by apply Hall].
    + right. destruct Hwhere as [->|(i & Hi & Hlt & Hbefore)].
      * exists 0%nat. split; [done|]. split; [done|]. intros j e Hj. lia.
      * exists (S i). split; [done|]. split.
        { eapply strictly_bounds_trans; [exact Hlt|].
          by apply strictly_bounds_weak. }
        intros [|j] e Hj He; simpl in He.
        { by injection He as <-. }
        apply (Hbefore j); [lia|done].
  - apply not_improves_spec in E.
    destruct (IH best) as (Hrb & Hall & Hwhere). simpl in *.
    split; [done|]. split.
    + intros e [->|He]%elem_of_cons; [|by apply Hall].
      by eapply bounds_trans.
    + destruct Hwhere as [->|(i & Hi & Hlt & Hbefore)]; [by left|].
      right. exists (S i). split; [done|]. split; [done|].
      intros [|j] e Hj He; simpl in He.
      { injection He as <-. by eapply strictly_bounds_trans. }
      apply (Hbefore j); [lia|done].
Qed.

Lemma extreme_spec s :
  match extreme mode s with
  | None => s = []
  | Some (k, v) =>
      exists i, s !! i = Some (k, v) /\
        (forall j e, s !! j = Some e -> bounds mode v e.2) /\
        (forall j e, (j < i)%nat -> s !! j = Some e ->
                     strictly_bounds mode v e.2)
  end.
Proof.
  destruct s as [|first rest]; simpl; [done|].
  pose proof (scan_spec first rest) as (Hfirst & Hall & Hwhere). simpl in *.
  destruct (foldl _ first rest) as [k v] eqn:Er. simpl in *.
  assert (forall j e, (first :: rest) !! j = Some e -> bounds mode v e.2)
    as Hbound.
  { intros [|j] e He; simpl in He.
    - by injection He as <-.
    - apply Hall. by eapply list_elem_of_lookup_2. }
  destruct Hwhere as [<-|(i & Hi & Hlt & Hbefore)].
  - exists 0%nat. split; [done|]. split; [done|]. intros j e Hj. lia.
  - exists (S i). split; [done|]. split; [done|].
    intros [|j] e Hj He; simpl in He.
    + by injection He as <-.
    + apply (Hbefore j); [lia|done].
Qed.
End Scan.

Example month_tie_in_key_order :
  extreme MAX (region_data (seasonal_data tie_example) "Asia")
  = Some (("Asia"%string, 1), 30%Q).
Proof. vm_compute. reflexivity. Qed.

Example month_tie_in_discovery_order :
  extreme MAX (region_data
                 (groupby_mean_discovery (fun r => (Region r, Month r))
                                         tie_example) "Asia")
  = Some (("Asia"%string, 7), 30%Q).
Proof. vm_compute. reflexivity. Qed.

Example country_tie_in_key_order :
  extreme MAX (avg_temps tie_example) = Some ("India"%string, 30%Q).
Proof. vm_compute. reflexivity. Qed.

(** C7, as stated, fails for the summaries that are not sorted by value:
    July and January tie in Asia, July is met first in the table, and the
    lookup on the seasonal summary returns January, the first key in key
    order. *)
Lemma tie_not_broken_in_discovery_order :
  ~ (forall (mode : Mode) (data : list (Row Q)) (region : string),
       extreme mode (region_data (seasonal_data data) region)
       = extreme mode
           (region_data
              (groupby_mean_discovery (fun r => (Region r, Month r)) data)
              region)).
Proof.
  intros Hclaim. specialize (Hclaim MAX tie_example "Asia"%string).
  rewrite month_tie_in_key_order, month_tie_in_discovery_order in Hclaim.
  discriminate Hclaim.
Qed.

(** C7, as the code has it.  On a non-empty summary the lookup returns an
    entry of the summary whose value bounds every value (from below for MIN,
    from above for MAX) and strictly bounds every value before it, so among
    tied entries the first in the summary's order; on an empty summary it
    returns nothing.  That order is ascending mean for the regional summary
    and ascending key for the country and the region-and-month summaries. *)
Theorem extreme_lookup :
  (forall K (mode : Mode) (s : list (K * Q)),
     match extreme mode s with
     | None => s = []
     | Some (k, v) =>
         exists i, s !! i = Some (k, v) /\
           (forall j e, s !! j = Some e -> bounds mode v e.2) /\
           (forall j e, (j < i)%nat -> s !! j = Some e ->
                        strictly_bounds mode v e.2)
     end) /\
  (forall cleaned_data : list (Row Q),
     StronglySorted (fun a b => (a.2 <= b.2)%Q)
                    (regional_avg_temp cleaned_data)) /\
  (forall data : list (Row Q),
     Sorted (fun a b => String.leb a b = true) (avg_temps data).*1) /\
  (forall data : list (Row Q),
     Sorted (fun a b => pair_leb a b = true) (seasonal_data data).*1) /\
  extreme MAX [("Asia", 15%Q); ("Europe", 5%Q)]%string
  = Some ("Asia"%string, 15%Q).
Proof.
  split; [|split; [|split; [|split]]].
  - intros K mode s. apply extreme_spec.
  - intros cleaned_data. apply sort_values_StronglySorted.
  - intros data. unfold avg_temps. rewrite groupby_mean_keys.
    apply sort_by_Sorted, String_leb_total.
  - intros data. unfold seasonal_data. rewrite groupby_mean_keys.
    apply sort_by_Sorted, pair_leb_total.
  - vm_compute. reflexivity.
Qed.

(** ** The reference dictionary *)

(** The last row of the reference table with a given name decides. *)
Lemma city_to_state_last cities c :
  city_to_state (cities ++ [c]) !! name c = Some (state c).
Proof.
  unfold city_to_state. rewrite foldl_app. simpl. apply lookup_insert_eq.
Qed.

Lemma city_to_state_absent cities c :
  Forall (fun r => name r <> c) cities -> city_to_state cities !! c = None.
Proof.
  unfold city_to_state. induction cities as [|r cities IH] using rev_ind.
  - done.
  - intros [Hcs Hr]%Forall_app. rewrite foldl_app. simpl.
    rewrite lookup_insert_ne; [by apply IH|].
    by inversion Hr.
Qed.

(** * Further properties of the cleaning pipeline *)

Section CleaningRows.
Context {T : Type} `{Arith T}.
Implicit Types (data : list (Row T)) (cities : list CityRow).

(** A property of a raw row and its cleaned row that holds whatever the
    year cell becomes holds row by row of the two tables. *)
Lemma preprocess_Forall2 (P : Row T -> Row T -> Prop) data cities :
  (forall i r y, data !! i = Some r ->
     corrected_years (Year <$> data) !! i = Some y ->
     P r (set_Year y (clean_row (city_to_state cities) r))) ->
  Forall2 P data (preprocess_temperature_data data cities).
Proof.
  intros HP. apply Forall2_same_length_lookup_2.
  - by rewrite length_preprocess.
  - intros i r r' Hr Hr'.
    destruct (preprocess_lookup data cities i r Hr) as (y & Hy & Hout).
    rewrite Hout in Hr'. injection Hr' as <-. by apply (HP i).
Qed.

(** X1.  Only the day 0 is corrected: it becomes 1, and every other day,
    in range or not, is the day of the raw row. *)
Theorem day_correction data cities :
  Forall2 (fun r r' => (Day r = 0 -> Day r' = 1) /\
                       (Day r <> 0 -> Day r' = Day r))
          data (preprocess_temperature_data data cities).
Proof.
  apply preprocess_Forall2. intros i r y _ _. simpl. unfold replace_0_1.
  destruct (Z.eqb_spec (Day r) 0); split; intros; congruence.
Qed.

(** X2.  When no year of the input lies in [1900,2024], every year of the
    cleaned table is null. *)
Theorem all_years_invalid data cities :
  Forall (fun r => forall y, Year r = Some y -> ~ (1900 <= y <= 2024)) data ->
  Forall (fun r' => Year r' = None) (preprocess_temperature_data data cities).
Proof.
  intros Hinv.
  assert (Forall (eq None) (valid_year <$> (Year <$> data))) as Hnone.
  { rewrite <- list_fmap_compose. apply Forall_fmap.
    eapply Forall_impl; [exact Hinv|]. intros r Hr. simpl.
    destruct (valid_year (Year r)) as [y|] eqn:E; [|done].
    apply valid_year_Some in E as [Hy ?]. by destruct (Hr y Hy). }
  assert (corrected_years (Year <$> data) = valid_year <$> (Year <$> data))
    as Hfix.
  { unfold corrected_years. rewrite ffill_id_None by done.
    by apply bfill_id_None. }
  assert (Forall (fun y => y = None)
            (Year <$> preprocess_temperature_data data cities)) as Hcol.
  { rewrite Year_preprocess, Hfix.
    eapply Forall_impl; [exact Hnone|]. by intros y <-. }
  by apply Forall_fmap in Hcol.
Qed.

(** X3.  A year in [1900,2024] is never replaced. *)
Theorem valid_years_kept data cities :
  Forall2 (fun r r' => forall y, Year r = Some y -> 1900 <= y <= 2024 ->
                                 Year r' = Some y)
          data (preprocess_temperature_data data cities).
Proof.
  apply preprocess_Forall2. intros i r y Hr Hy z Hz Hrange. simpl.
  assert ((valid_year <$> (Year <$> data)) !! i = Some (Some z)) as Hv.
  { rewrite !list_lookup_fmap, Hr. simpl.
    by rewrite Hz, valid_year_in_range. }
  unfold corrected_years in Hy.
  rewrite (bfill_keep _ i z) in Hy; [congruence|].
  unfold ffill. by apply ffill_from_keep.
Qed.

(** X4.  The fills copy and never invent: every year of the cleaned table
    is a year in [1900,2024] that some row of the input carries. *)
Theorem years_come_from_input data cities :
  Forall (fun r' => forall y, Year r' = Some y ->
            1900 <= y <= 2024 /\ exists r, r ∈ data /\ Year r = Some y)
         (preprocess_temperature_data data cities).
Proof.
  assert (Forall (fun o : option Z => forall y, o = Some y ->
            1900 <= y <= 2024 /\ exists r, r ∈ data /\ Year r = Some y)
            (Year <$> preprocess_temperature_data data cities)) as Hcol.
  { rewrite Year_preprocess. unfold corrected_years, ffill.
    apply bfill_Forall, ffill_from_Forall; [done|].
    rewrite <- list_fmap_compose. apply Forall_fmap, Forall_forall.
    intros r Hr y Hy. simpl in Hy. apply valid_year_Some in Hy as [Hy ?].
    eauto. }
  by apply Forall_fmap in Hcol.
Qed.

(** X6.  Apart from the year, a row is cleaned on its own: cleaning two
    tables one after the other, or as one table, gives the same [State],
    [Day], temperature and other cells. *)
Theorem cleaning_is_rowwise_except_year (data1 data2 : list (Row T)) cities :
  set_Year None <$> preprocess_temperature_data (data1 ++ data2) cities =
  set_Year None <$> (preprocess_temperature_data data1 cities
                     ++ preprocess_temperature_data data2 cities).
Proof.
  rewrite fmap_app, !preprocess_rows.
  rewrite !(fmap_assign (set_Year None)) by done.
  by rewrite !fmap_app.
Qed.

(** X7.  No cleaned row has a null state, whatever the input and the
    reference table hold. *)
Theorem state_never_null (data : list (Row T)) cities :
  Forall (fun r' => is_Some (State r'))
         (preprocess_temperature_data data cities).
Proof.
  apply Forall_forall. intros r' Hr'.
  apply preprocess_elem in Hr' as (i & r & y & _ & _ & ->). simpl.
  unfold fillna. destruct (lookup_state _ r); eauto.
Qed.
End CleaningRows.

(** X5.  The dictionary built from the reference table maps a city to the
    state of the last row with that name, and has no entry for a name that
    no row carries. *)
Theorem city_to_state_lookup (cities : list CityRow) (city : string) :
  city_to_state cities !! city
  = state <$> last (filter (fun r => name r = city) cities).
Proof.
  unfold city_to_state. induction cities as [|r cities IH] using rev_ind.
  - done.
  - rewrite foldl_app, filter_app. simpl.
    destruct (decide (name r = city)) as [<-|Hne].
    + rewrite lookup_insert_eq, filter_cons_True by done.
      by rewrite filter_nil, last_snoc.
    + rewrite lookup_insert_ne by done.
      rewrite filter_cons_False, filter_nil by done.
      by rewrite app_nil_r.
Qed.

Lemma all_years_invalid_witness :
  Forall (fun r' : Row Q => Year r' = None)
    (preprocess_temperature_data
       [ mkRow "Asia" "India" None "Delhi" (Some 201) 1 1 50%Q;
         mkRow "Asia" "India" None "Delhi" None 1 2 51%Q;
         mkRow "Asia" "India" None "Delhi" (Some 2025) 1 3 52%Q ]%string
       sample_cities).
Proof.
  apply all_years_invalid.
  repeat (apply Forall_cons; split;
          [simpl; intros y Hy; inversion Hy; subst; lia|]).
  apply Forall_nil_2.
Defined.

(** * Row order and the summaries *)

Lemma String_leb_spec (a b : string) :
  String.leb a b = true <-> a = b \/ OrderedTypeEx.String_as_OT.lt a b.
Proof.
  unfold String.leb.
  pose proof (OrderedTypeEx.String_as_OT.cmp_eq a b) as Heq.
  pose proof (OrderedTypeEx.String_as_OT.cmp_lt a b) as Hlt.
  unfold OrderedTypeEx.String_as_OT.cmp in *.
  destruct (String.compare a b); split; try done.
  - intros _. left. by apply Heq.
  - intros _. right. by apply Hlt.
  - intros [Hab|Hab]; [by apply Heq in Hab|by apply Hlt in Hab].
Qed.

Lemma String_leb_trans (a b c : string) :
  String.leb a b = true -> String.leb b c = true -> String.leb a c = true.
Proof.
  rewrite !String_leb_spec. intros [->|Hab] [->|Hbc]; auto.
  right. by eapply OrderedTypeEx.String_as_OT.lt_trans.
Qed.

Lemma pair_leb_trans (a b c : string * Z) :
  pair_leb a b = true -> pair_leb b c = true -> pair_leb a c = true.
Proof.
  unfold pair_leb. destruct a as [a1 a2], b as [b1 b2], c as [c1 c2]. simpl.
  destruct (decide (a1 = b1)) as [->|Hab1], (decide (b1 = c1)) as [->|Hbc1];
    rewrite ?bool_decide_eq_true_2, ?(bool_decide_eq_false_2 (_ = _))
      by done; intros Hab Hbc.
  - lia.
  - done.
  - done.
  - destruct (decide (a1 = c1)) as [->|Hac1].
    + destruct Hab1. by apply String.leb_antisym.
    + rewrite bool_decide_eq_false_2 by done. by eapply String_leb_trans.
Qed.

Lemma pair_leb_antisym (a b : string * Z) :
  pair_leb a b = true -> pair_leb b a = true -> a = b.
Proof.
  unfold pair_leb. destruct a as [a1 a2], b as [b1 b2]. simpl.
  destruct (decide (a1 = b1)) as [->|Hne].
  - rewrite !bool_decide_eq_true_2 by done. intros. f_equal. lia.
  - rewrite !bool_decide_eq_false_2 by done. intros Hab Hba.
    destruct Hne. by apply String.leb_antisym.
Qed.

Section SortUnique.
Context {A : Type} (leb : A -> A -> bool).
Hypothesis leb_total : forall a b, leb a b = false -> leb b a = true.
Hypothesis leb_trans :
  forall a b c, leb a b = true -> leb b c = true -> leb a c = true.
Hypothesis leb_antisym : forall a b, leb a b = true -> leb b a = true -> a = b.

Lemma sort_by_StronglySorted (l : list A) :
  StronglySorted (fun a b => leb a b = true) (sort_by leb l).
Proof.
  apply Sorted_StronglySorted.
  - intros a b c. apply leb_trans.
  - by apply sort_by_Sorted.
Qed.

(** A sorted list is determined by its elements. *)
Lemma sort_by_Permutation (l1 l2 : list A) :
  l1 ≡ₚ l2 -> sort_by leb l1 = sort_by leb l2.
Proof.
  intros Hperm.
  assert (AntiSymm eq (fun a b => leb a b = true)) as Hanti.
  { intros a b. apply leb_antisym. }
  apply (StronglySorted_unique (fun a b => leb a b = true)).
  - apply sort_by_StronglySorted.
  - apply sort_by_StronglySorted.
  - by rewrite !sort_by_perm.
Qed.
End SortUnique.

Lemma unique_Permutation {K} `{EqDecision K} (l1 l2 : list K) :
  l1 ≡ₚ l2 -> unique l1 ≡ₚ unique l2.
Proof.
  intros Hperm. apply NoDup_Permutation; try apply NoDup_unique.
  intros x. by rewrite !elem_of_unique, Hperm.
Qed.

Lemma groupby_mean_keys_Permutation {K} `{EqDecision K}
    (leb : K -> K -> bool) (key : Row Q -> K) (df df' : list (Row Q)) :
  (forall a b, leb a b = false -> leb b a = true) ->
  (forall a b c, leb a b = true -> leb b c = true -> leb a c = true) ->
  (forall a b, leb a b = true -> leb b a = true -> a = b) ->
  df ≡ₚ df' ->
  (groupby_mean leb key df).*1 = (groupby_mean leb key df').*1.
Proof.
  intros Htotal Htrans Hanti Hperm. rewrite !groupby_mean_keys.
  apply sort_by_Permutation; try done.
  apply unique_Permutation. by rewrite Hperm.
Qed.

(** X10.  Which groups a summary has, and in which order, does not depend
    on the order of the rows: tables with the same rows in any order give
    country summaries with the same countries in the same order, and
    seasonal summaries with the same region-and-month keys in the same
    order. *)
Theorem summaries_ignore_row_order (df df' : list (Row Q)) :
  df ≡ₚ df' ->
  (avg_temps df).*1 = (avg_temps df').*1 /\
  (seasonal_data df).*1 = (seasonal_data df').*1.
Proof.
  intros Hperm. split.
  - apply groupby_mean_keys_Permutation; try done.
    + apply String_leb_total.
    + apply String_leb_trans.
    + apply String.leb_antisym.
  - apply groupby_mean_keys_Permutation; try done.
    + apply pair_leb_total.
    + apply pair_leb_trans.
    + apply pair_leb_antisym.
Qed.

Lemma summaries_ignore_row_order_witness :
  (avg_temps tie_example).*1 = (avg_temps (reverse tie_example)).*1 /\
  (seasonal_data tie_example).*1 = (seasonal_data (reverse tie_example)).*1.
Proof.
  apply summaries_ignore_row_order. apply Permutation_swap.
Defined.

(** * The bar chart annotation *)

Lemma get_loc_lookup {K} `{EqDecision K} (label : K) (index : list K) i :
  get_loc label index = Some i -> index !! i = Some label.
Proof.
  revert i; induction index as [|k index IH]; intros i; simpl; [done|].
  destruct (decide (k = label)) as [->|Hne].
  - by intros [= <-].
  - destruct (get_loc label index) as [j|]; simpl; [|done].
    intros [= <-]. by apply IH.
Qed.

Lemma get_loc_NoDup {K} `{EqDecision K} (label : K) (index : list K) i :
  NoDup index -> index !! i = Some label -> get_loc label index = Some i.
Proof.
  intros Hnd; revert i; induction Hnd as [|k index Hk _ IH]; intros i;
    [done|].
  destruct i as [|i]; simpl.
  - intros [= ->]. by rewrite decide_True.
  - intros Hi. rewrite decide_False.
    + by rewrite (IH i Hi).
    + intros ->. apply Hk. by eapply list_elem_of_lookup_2.
Qed.

(** In a series sorted by value the first entry is the minimum the scan
    keeps. *)
Lemma extreme_MIN_sorted {K} (s : list (K * Q)) :
  StronglySorted (fun a b => (a.2 <= b.2)%Q) s -> extreme MIN s = head s.
Proof.
  destruct s as [|first rest]; [done|]. intros Hs. simpl. f_equal.
  apply StronglySorted_inv in Hs as [_ Hall].
  induction Hall as [|x rest Hx _ IH]; [done|]. simpl.
  apply Qle_bool_iff in Hx. by rewrite Hx.
Qed.

Lemma regional_avg_temp_perm (df : list (Row Q)) :
  regional_avg_temp df ≡ₚ groupby_mean String.leb Region df.
Proof. apply sort_by_perm. Qed.

Lemma regional_avg_temp_NoDup (df : list (Row Q)) :
  NoDup (regional_avg_temp df).*1.
Proof.
  rewrite regional_avg_temp_perm, groupby_mean_keys_perm.
  apply NoDup_unique.
Qed.

Lemma groupby_mean_nil {K} `{EqDecision K} (leb : K -> K -> bool)
    (key : Row Q -> K) (df : list (Row Q)) :
  groupby_mean leb key df = [] <-> df = [].
Proof.
  split; [|by intros ->].
  intros Hnil. destruct df as [|r df]; [done|].
  assert (key r ∈ (groupby_mean leb key (r :: df)).*1) as Hin.
  { rewrite groupby_mean_keys_perm, elem_of_unique. csimpl.
    apply list_elem_of_here. }
  rewrite Hnil in Hin. by apply not_elem_of_nil in Hin.
Qed.

Lemma regional_avg_temp_nil (df : list (Row Q)) :
  regional_avg_temp df = [] <-> df = [].
Proof.
  rewrite <- (groupby_mean_nil String.leb Region). split.
  - intros Hnil. apply Permutation_nil_r.
    by rewrite <- regional_avg_temp_perm, Hnil.
  - intros Hnil. apply Permutation_nil_r.
    by rewrite regional_avg_temp_perm, Hnil.
Qed.

(** X11.  With "Min" selected the annotation points at the first bar, at
    that bar's height: the series is sorted, so its minimum comes first. *)
Theorem bar_annotation_min (cleaned_data : list (Row Q)) :
  bar_annotation "Min" (regional_avg_temp cleaned_data)
  = (fun e => (0%nat, e.2)) <$> head (regional_avg_temp cleaned_data).
Proof.
  unfold bar_annotation.
  change (selected_mode "Min") with MIN.
  rewrite extreme_MIN_sorted by apply sort_values_StronglySorted.
  destruct (regional_avg_temp cleaned_data) as [|[region temp] rest];
    [done|].
  simpl. by rewrite decide_True.
Qed.

(** X12.  With any other selection the annotation points at the first of
    the bars of greatest height: every bar before it is strictly lower and
    every bar from it on has its height. *)
Theorem bar_annotation_max (selection : string) (cleaned_data : list (Row Q))
    (loc : nat) (temp : Q) :
  selection <> "Min"%string ->
  bar_annotation selection (regional_avg_temp cleaned_data) = Some (loc, temp) ->
  exists region,
    regional_avg_temp cleaned_data !! loc = Some (region, temp) /\
    forall j e, regional_avg_temp cleaned_data !! j = Some e ->
      ((j < loc)%nat -> (e.2 < temp)%Q) /\
      ((loc <= j)%nat -> (e.2 == temp)%Q).
Proof.
  intros Hsel. unfold bar_annotation, selected_mode.
  rewrite decide_False by done.
  pose proof (extreme_spec MAX (regional_avg_temp cleaned_data)) as Hspec.
  pose proof (sort_values_StronglySorted
                (groupby_mean String.leb Region cleaned_data)) as Hsorted.
  fold (regional_avg_temp cleaned_data) in Hsorted.
  pose proof (regional_avg_temp_NoDup cleaned_data) as Hnd.
  destruct (extreme MAX (regional_avg_temp cleaned_data)) as [[region v]|];
    [|done].
  destruct Hspec as (i & Hi & Hbound & Hbefore).
  rewrite (get_loc_NoDup region _ i Hnd)
    by (by rewrite list_lookup_fmap, Hi).
  simpl. intros [= <- <-]. exists region. split; [done|].
  intros j e He. split.
  - intros Hlt. apply (Hbefore j e Hlt He).
  - intros Hle. apply Qle_antisym; [apply (Hbound j e He)|].
    destruct (decide (i = j)) as [->|Hne].
    + rewrite Hi in He. injection He as <-. simpl. lra.
    + assert (i < j)%nat as Hij by lia.
      pose proof (StronglySorted_app_1_elem_of
                    (fun a b : string * Q => (a.2 <= b.2)%Q)
                    (take j (regional_avg_temp cleaned_data))
                    (drop j (regional_avg_temp cleaned_data))
                    (region, v) e) as Happ.
      rewrite take_drop in Happ. apply Happ; [done| |].
      * apply list_elem_of_lookup. exists i. by rewrite lookup_take_lt.
      * apply list_elem_of_lookup. exists 0%nat.
        by rewrite lookup_drop, Nat.add_0_r.
Qed.

Lemma bar_annotation_max_witness :
  exists region,
    regional_avg_temp region_example !! 1%nat = Some (region, 15%Q) /\
    forall j e, regional_avg_temp region_example !! j = Some e ->
      ((j < 1)%nat -> (e.2 < 15)%Q) /\ ((1 <= j)%nat -> (e.2 == 15)%Q).
Proof.
  apply (bar_annotation_max "Max" region_example 1%nat 15%Q).
  - discriminate.
  - vm_compute. reflexivity.
Defined.

(** X13.  The annotation fails (the minimum of an empty series has no
    position) exactly when the cleaned table has no row; with at least one
    row there is always a bar to point at. *)
Theorem bar_annotation_fails_iff_empty (selection : string)
    (cleaned_data : list (Row Q)) :
  bar_annotation selection (regional_avg_temp cleaned_data) = None
  <-> cleaned_data = [].
Proof.
  set (s := regional_avg_temp cleaned_data).
  rewrite <- (regional_avg_temp_nil cleaned_data). fold s.
  unfold bar_annotation.
  pose proof (extreme_spec (selected_mode selection) s) as Hspec.
  destruct (extreme (selected_mode selection) s) as [[region v]|]; [|done].
  destruct Hspec as (i & Hi & _).
  rewrite (get_loc_NoDup region s.*1 i)
    by (apply regional_avg_temp_NoDup || by rewrite list_lookup_fmap, Hi).
  simpl. split; [done|]. intros Hs. by rewrite Hs in Hi.
Qed.

(** X8.  Sorting the regional summary loses and adds nothing: it has one
    bar for each region of the table and no other, and the bar of a region
    is the mean over the rows of that region. *)
Theorem regional_summary_entries (cleaned_data : list (Row Q)) :
  NoDup (regional_avg_temp cleaned_data).*1 /\
  forall region m,
    (region, m) ∈ regional_avg_temp cleaned_data <->
    region ∈ Region <$> cleaned_data /\
    m = mean (AvgTemperature <$>
                filter (fun r => Region r = region) cleaned_data).
Proof.
  split; [apply regional_avg_temp_NoDup|].
  intros region m. rewrite regional_avg_temp_perm.
  apply groupby_mean_elem.
Qed.

(** * The seasonal chart *)

Section SortedFacts.
Context {A : Type} (R : relation A).

Lemma StronglySorted_lookup (l : list A) i j a b :
  StronglySorted R l -> (i < j)%nat ->
  l !! i = Some a -> l !! j = Some b -> R a b.
Proof.
  intros Hs Hij Hi Hj.
  rewrite <- (take_drop j l) in Hs.
  apply (StronglySorted_app_1_elem_of R _ _ a b Hs).
  - apply list_elem_of_lookup. exists i. by rewrite lookup_take_lt.
  - apply list_elem_of_lookup. exists 0%nat.
    by rewrite lookup_drop, Nat.add_0_r.
Qed.

Lemma StronglySorted_filter (P : A -> Prop) `{forall x, Decision (P x)}
    (l : list A) :
  StronglySorted R l -> StronglySorted R (filter P l).
Proof.
  induction 1 as [|x l _ IH Hx]; [constructor|].
  rewrite filter_cons. destruct (decide (P x)); [|done].
  constructor; [done|].
  apply Forall_forall. intros y [_ Hy]%list_elem_of_filter.
  rewrite Forall_forall in Hx. by apply Hx.
Qed.

Lemma StronglySorted_impl_elem (R' : relation A) (l : list A) :
  (forall a b, a ∈ l -> b ∈ l -> R a b -> R' a b) ->
  StronglySorted R l -> StronglySorted R' l.
Proof.
  intros HR Hs. induction Hs as [|x l _ IH Hx]; [constructor|].
  constructor.
  - apply IH. intros a b Ha Hb. apply HR; by apply list_elem_of_further.
  - apply Forall_forall. intros y Hy. rewrite Forall_forall in Hx.
    apply HR; [apply list_elem_of_here|by apply list_elem_of_further|].
    by apply Hx.
Qed.

Lemma StronglySorted_NoDup_strict (l : list A) :
  StronglySorted R l -> NoDup l ->
  StronglySorted (fun a b => R a b /\ a <> b) l.
Proof.
  induction 1 as [|x l _ IH Hx]; intros Hnd; [constructor|].
  apply NoDup_cons in Hnd as [Hx' Hnd]. constructor; [by apply IH|].
  apply Forall_forall. intros y Hy. rewrite Forall_forall in Hx.
  split; [by apply Hx|]. by intros ->.
Qed.
End SortedFacts.

Lemma enumerate_from_lookup {A} (start : nat) (xs : list A) i x :
  (i, x) ∈ enumerate_from start xs ->
  exists j, i = (start + j)%nat /\ xs !! j = Some x.
Proof.
  revert start; induction xs as [|y xs IH]; intros start Hin; simpl in Hin.
  - by apply not_elem_of_nil in Hin.
  - apply elem_of_cons in Hin as [[= -> ->]|Hin].
    + exists 0%nat. split; [lia|done].
    + destruct (IH _ Hin) as (j & -> & Hj). exists (S j). split; [lia|done].
Qed.

(** The keys of the seasonal summary ascend strictly. *)
Lemma seasonal_data_sorted (data : list (Row Q)) :
  StronglySorted (fun a b => pair_leb a.1 b.1 = true /\ a.1 <> b.1)
                 (seasonal_data data).
Proof.
  unfold seasonal_data, groupby_mean.
  apply (StronglySorted_fmap _ (fun a b => pair_leb a b = true /\ a <> b));
    [done|].
  apply StronglySorted_NoDup_strict.
  - apply sort_by_StronglySorted; [apply pair_leb_total|apply pair_leb_trans].
  - rewrite sort_by_perm. apply NoDup_unique.
Qed.

Lemma region_data_elem seasonal region e :
  e ∈ region_data seasonal region <-> e.1.1 = region /\ e ∈ seasonal.
Proof. unfold region_data. by rewrite list_elem_of_filter. Qed.

(** Within one region the entries ascend strictly by month. *)
Lemma region_data_sorted (data : list (Row Q)) (region : string) :
  StronglySorted (fun a b => a.1.2 < b.1.2)
                 (region_data (seasonal_data data) region).
Proof.
  eapply StronglySorted_impl_elem;
    [|apply StronglySorted_filter, seasonal_data_sorted].
  intros [[ra ma] va] [[rb mb] vb] [Ha _]%region_data_elem
         [Hb _]%region_data_elem [Hle Hne].
  simpl in *. subst ra rb. unfold pair_leb in Hle. simpl in Hle.
  rewrite bool_decide_eq_true_2 in Hle by done.
  assert (ma <> mb) by congruence. lia.
Qed.

Lemma region_data_nonempty (data : list (Row Q)) (region : string) :
  region_data (seasonal_data data) region <> [] <-> region ∈ Region <$> data.
Proof.
  split.
  - intros Hne. destruct (region_data _ region) as [|e rd] eqn:E; [done|].
    assert (e ∈ region_data (seasonal_data data) region) as He.
    { rewrite E. apply list_elem_of_here. }
    apply region_data_elem in He as [<- He]. destruct e as [k m].
    apply groupby_mean_elem in He as [Hk _].
    apply list_elem_of_fmap in Hk as (r & -> & Hr). simpl.
    apply list_elem_of_fmap. by exists r.
  - intros (r & -> & Hr)%list_elem_of_fmap Hnil.
    set (k := (Region r, Month r)).
    assert ((k, mean (AvgTemperature <$>
               filter (fun r0 => (Region r0, Month r0) = k) data))
            ∈ region_data (seasonal_data data) (Region r)) as Hin.
    { apply region_data_elem. split; [done|].
      apply groupby_mean_elem. split; [|done].
      apply list_elem_of_fmap. by exists r. }
    rewrite Hnil in Hin. by apply not_elem_of_nil in Hin.
Qed.

Lemma seasonal_line_Some seasonal entry line :
  seasonal_line seasonal entry = Some line ->
  line_color line = entry.1 /\ line_label line = entry.2 /\
  line_points line
    = (fun e => (e.1.2, e.2)) <$> region_data seasonal entry.2 /\
  exists top, extreme MAX (region_data seasonal entry.2) = Some top /\
              line_highest line = (top.1.2, top.2).
Proof.
  unfold seasonal_line. destruct (region_data seasonal entry.2) as [|e rd];
    [done|].
  destruct (extreme MAX (e :: rd)) as [top|]; [|done].
  simpl. intros [= <-]. simpl. repeat split. by exists top.
Qed.

Lemma seasonal_line_None seasonal entry :
  seasonal_line seasonal entry = None <-> region_data seasonal entry.2 = [].
Proof.
  unfold seasonal_line. destruct (region_data seasonal entry.2) as [|e rd];
    [done|].
  split; [|done]. simpl. done.
Qed.

(** X14.  The seasonal chart draws one line for each selected region that
    occurs in the table, in the order of the selection, and skips the
    others. *)
Theorem seasonal_lines_drawn (data : list (Row Q)) (regions : list string) :
  line_label <$> plot_seasonal_trends data regions
  = filter (fun region => region ∈ Region <$> data) regions.
Proof.
  unfold plot_seasonal_trends, enumerate. generalize 0%nat.
  induction regions as [|region regions IH]; intros start; [done|].
  simpl. rewrite filter_cons.
  destruct (seasonal_line (seasonal_data data) (start, region)) as [line|]
    eqn:E.
  - apply seasonal_line_Some in E as (_ & Hlabel & Hpts & top & Htop & _).
    simpl in *. rewrite decide_True.
    + csimpl. by rewrite Hlabel, IH.
    + apply region_data_nonempty. intros Hnil. by rewrite Hnil in Htop.
  - apply seasonal_line_None in E. simpl in E. rewrite decide_False.
    + apply IH.
    + intros Hin. by apply region_data_nonempty in Hin.
Qed.

(** X15.  The colour slot of a line is the position of its region in the
    selection, whether or not regions before it were skipped. *)
Theorem seasonal_line_colors (data : list (Row Q)) (regions : list string) :
  Forall (fun line => regions !! line_color line = Some (line_label line))
         (plot_seasonal_trends data regions).
Proof.
  apply Forall_forall. intros line Hline.
  apply list_elem_of_omap in Hline as ([i region] & Hin & Hline).
  apply seasonal_line_Some in Hline as (-> & -> & _). simpl.
  apply enumerate_from_lookup in Hin as (j & -> & Hj). done.
Qed.

(** X16.  The points of a line ascend strictly by month, the annotated
    point is one of them and no point lies above it; among the points as
    high as it, it is the one of the earliest month. *)
Theorem seasonal_line_highest (data : list (Row Q)) (regions : list string) :
  Forall (fun line =>
            StronglySorted Z.lt (line_points line).*1 /\
            line_highest line ∈ line_points line /\
            Forall (fun p => (p.2 <= (line_highest line).2)%Q /\
                             ((p.2 == (line_highest line).2)%Q ->
                              (line_highest line).1 <= p.1))
                   (line_points line))
         (plot_seasonal_trends data regions).
Proof.
  apply Forall_forall. intros line Hline.
  apply list_elem_of_omap in Hline as ([c region] & _ & Hline).
  apply seasonal_line_Some in Hline as (_ & _ & -> & top & Htop & ->).
  simpl in *. set (rd := region_data (seasonal_data data) region) in *.
  pose proof (region_data_sorted data region) as Hsorted. fold rd in Hsorted.
  pose proof (extreme_spec MAX rd) as Hspec. rewrite Htop in Hspec.
  destruct top as [ktop vtop]. destruct Hspec as (i & Hi & Hbound & Hbefore).
  split; [|split].
  - rewrite <- list_fmap_compose.
    by apply (StronglySorted_fmap _ (fun a b => a.1.2 < b.1.2)).
  - apply list_elem_of_fmap. exists (ktop, vtop). split; [done|].
    by eapply list_elem_of_lookup_2.
  - apply Forall_fmap, Forall_forall. intros e [j Hj]%list_elem_of_lookup.
    simpl. split; [apply (Hbound j e Hj)|]. intros Heq.
    destruct (decide (j < i)%nat) as [Hlt|Hge].
    + pose proof (Hbefore j e Hlt Hj) as Hstrict. simpl in Hstrict. lra.
    + destruct (decide (i = j)) as [->|Hne].
      * rewrite Hi in Hj. injection Hj as <-. simpl. lia.
      * assert (ktop.2 < e.1.2); [|lia].
        apply (StronglySorted_lookup _ rd i j (ktop, vtop) e Hsorted);
          [lia|done|done].
Qed.

(** X17.  A line has one point for each month in which its region has a
    row, and the point's height is the mean temperature of the rows of that
    region and month. *)
Theorem seasonal_line_points (data : list (Row Q)) (regions : list string) :
  Forall (fun line => forall month m,
            (month, m) ∈ line_points line <->
            (exists r, r ∈ data /\ Region r = line_label line /\
                       Month r = month) /\
            m = mean (AvgTemperature <$>
                  filter (fun r => (Region r, Month r)
                                   = (line_label line, month)) data))
         (plot_seasonal_trends data regions).
Proof.
  apply Forall_forall. intros line Hline month m.
  apply list_elem_of_omap in Hline as ([c region] & _ & Hline).
  apply seasonal_line_Some in Hline as (_ & -> & -> & _). simpl.
  rewrite list_elem_of_fmap. split.
  - intros ([[region' month'] m'] & [= -> ->] & [Hreg He]%region_data_elem).
    simpl in *. subst region'.
    apply groupby_mean_elem in He as [Hk ->]. split; [|done].
    apply list_elem_of_fmap in Hk as (r & [= Hr1 Hr2] & Hr). eauto.
  - intros [(r & Hr & Hreg & Hmonth) ->].
    eexists ((region, month), _). split; [done|].
    apply region_data_elem. split; [done|].
    apply groupby_mean_elem. split; [|done].
    apply list_elem_of_fmap. exists r. by rewrite Hreg, Hmonth.
Qed.

Lemma seasonal_all_present (data : list (Row Q)) (regions : list string)
    (start : nat) :
  Forall (fun region => region ∈ Region <$> data) regions ->
  (fun line => (line_color line, line_label line))
    <$> omap (seasonal_line (seasonal_data data)) (enumerate_from start regions)
  = enumerate_from start regions.
Proof.
  intros Hall; revert start.
  induction Hall as [|region regions Hin _ IH]; intros start; [done|].
  simpl.
  destruct (seasonal_line (seasonal_data data) (start, region)) as [line|]
    eqn:E.
  - apply seasonal_line_Some in E as (Hc & Hl & _). simpl in *.
    csimpl. by rewrite Hc, Hl, IH.
  - apply seasonal_line_None in E. simpl in E.
    by apply region_data_nonempty in Hin.
Qed.

(** X18.  The page's default selection is the first three distinct regions
    of the table, or all of them when there are fewer; the seasonal chart
    drawn for it skips nothing and uses the colour slots 0, 1, 2 in that
    order. *)
Theorem default_regions_all_drawn (cleaned_data : list (Row Q)) :
  (length (default_regions cleaned_data) <= 3)%nat /\
  NoDup (default_regions cleaned_data) /\
  (fun line => (line_color line, line_label line))
    <$> plot_seasonal_trends cleaned_data (default_regions cleaned_data)
  = enumerate (default_regions cleaned_data).
Proof.
  unfold default_regions, region_options. split; [|split].
  - rewrite length_take. lia.
  - apply (sublist_NoDup _ (unique (Region <$> cleaned_data)));
      [apply NoDup_unique|apply sublist_take].
  - apply seasonal_all_present, Forall_forall. intros region Hin.
    apply elem_of_unique.
    apply elem_of_take in Hin as (i & Hi & _). by eapply list_elem_of_lookup_2.
Qed.

(** * The city chart *)

Lemma enumerate_from_snd {A} (start : nat) (xs : list A) :
  (enumerate_from start xs).*2 = xs.
Proof.
  revert start; induction xs as [|x xs IH]; intros start; [done|].
  csimpl. by rewrite IH.
Qed.

Lemma enumerate_from_fst {A} (start : nat) (xs : list A) :
  (enumerate_from start xs).*1 = seq start (length xs).
Proof.
  revert start; induction xs as [|x xs IH]; intros start; [done|].
  csimpl. by rewrite IH.
Qed.

Lemma row_idxmax_None (rows : list (Row Q)) :
  row_idxmax rows = None <-> rows = [].
Proof. unfold row_idxmax. by destruct rows. Qed.

Lemma row_idxmax_Some (rows : list (Row Q)) (top : Row Q) :
  row_idxmax rows = Some top ->
  exists i, rows !! i = Some top /\
    (forall r, r ∈ rows -> (AvgTemperature r <= AvgTemperature top)%Q) /\
    (forall j r, (j < i)%nat -> rows !! j = Some r ->
                 (AvgTemperature r < AvgTemperature top)%Q).
Proof.
  unfold row_idxmax.
  pose proof (extreme_spec MAX ((fun r => (r, AvgTemperature r)) <$> rows))
    as Hspec.
  destruct (extreme MAX _) as [[r t]|]; [|done].
  simpl. intros [= ->]. destruct Hspec as (i & Hi & Hbound & Hbefore).
  rewrite list_lookup_fmap in Hi.
  destruct (rows !! i) as [r|] eqn:Er; [|done].
  simpl in Hi. injection Hi as -> <-.
  exists i. split; [done|]. split.
  - intros r [j Hj]%list_elem_of_lookup.
    apply (Hbound j (r, AvgTemperature r)).
    by rewrite list_lookup_fmap, Hj.
  - intros j r Hlt Hj. apply (Hbefore j (r, AvgTemperature r) Hlt).
    by rewrite list_lookup_fmap, Hj.
Qed.

Lemma filter_none {A} (P : A -> Prop) `{forall x, Decision (P x)}
    (l : list A) :
  (forall x, x ∈ l -> ~ P x) -> filter P l = [].
Proof.
  induction l as [|x l IH]; intros Hall; [done|].
  rewrite filter_cons, decide_False by (apply Hall, list_elem_of_here).
  apply IH. intros y Hy. by apply Hall, list_elem_of_further.
Qed.

(** The rows a city's line is drawn from. *)
Lemma city_data_filter (data : list (Row Q)) (cities : list string)
    (selected_year : Z) (city : string) :
  city ∈ cities ->
  filter (fun r => City r = city)
    (filter (fun r => Year r = Some selected_year)
       (filter (fun r => City r ∈ cities) data))
  = filter (fun r => City r = city /\ Year r = Some selected_year) data.
Proof.
  intros Hcity. induction data as [|r data IH]; [done|].
  rewrite !(filter_cons _ r).
  destruct (decide (City r = city)) as [Hc|Hc].
  - rewrite (decide_True (P := City r ∈ cities)) by (by rewrite Hc).
    rewrite filter_cons.
    destruct (decide (Year r = Some selected_year)) as [Hy|Hy].
    + rewrite filter_cons, decide_True, decide_True by done. by rewrite IH.
    + by rewrite decide_False by (by intros [_ ?]).
  - rewrite (decide_False (P := City r = city /\ _)) by (by intros [? _]).
    destruct (decide (City r ∈ cities)); [|done].
    rewrite filter_cons.
    destruct (decide (Year r = Some selected_year)); [|done].
    by rewrite filter_cons, decide_False.
Qed.

(** X19.  The city chart raises exactly when some selected city has no row
    in the selected year: nothing skips a city without data.  In
    particular it never raises when no city is selected. *)
Theorem city_chart_fails_iff_missing (data : list (Row Q))
    (cities : list string) (selected_year : Z) :
  plot_temperature_trends data cities selected_year = None <->
  exists city, city ∈ cities /\
    forall r, r ∈ data -> City r = city -> Year r <> Some selected_year.
Proof.
  unfold plot_temperature_trends. rewrite mapM_None, Exists_exists.
  unfold city_line. split.
  - intros ([i city] & Hin & Hnone). simpl in Hnone.
    assert (city ∈ cities) as Hcity.
    { rewrite <- (enumerate_from_snd 0 cities).
      apply list_elem_of_fmap. by exists (i, city). }
    exists city. split; [done|]. intros r Hr Hc Hy.
    rewrite city_data_filter in Hnone by done.
    destruct (row_idxmax _) eqn:E; [done|].
    apply row_idxmax_None in E.
    assert (r ∈ filter (fun r => City r = city /\ Year r = Some selected_year)
                       data) as Hrin by (by apply list_elem_of_filter).
    rewrite E in Hrin. by apply not_elem_of_nil in Hrin.
  - intros (city & Hcity & Hnone).
    rewrite <- (enumerate_from_snd 0 cities) in Hcity.
    apply list_elem_of_fmap in Hcity as ([i city'] & -> & Hin).
    exists (i, city'). split; [done|]. simpl.
    rewrite city_data_filter
      by (rewrite <- (enumerate_from_snd 0 cities);
          apply list_elem_of_fmap; by exists (i, city')).
    assert (filter (fun r => City r = city' /\ Year r = Some selected_year)
                   data = []) as ->; [|done].
    apply filter_none. intros r Hr [Hc Hy]. by apply (Hnone r).
Qed.

(** X20.  When the city chart is drawn it has one line per selected city,
    in the order of the selection and in the colour slots 0, 1, 2, ...; a
    line is drawn from the rows of its city in the selected year, and its
    annotated row is the first of those rows that no other one exceeds. *)
Theorem city_chart_lines (data : list (Row Q)) (cities : list string)
    (selected_year : Z) (lines : list CityLine) :
  plot_temperature_trends data cities selected_year = Some lines ->
  city_label <$> lines = cities /\
  city_color <$> lines = seq 0 (length cities) /\
  Forall (fun line =>
            city_rows line
            = filter (fun r => City r = city_label line /\
                               Year r = Some selected_year) data /\
            exists i, city_rows line !! i = Some (city_highest line) /\
              (forall r, r ∈ city_rows line ->
                 (AvgTemperature r <= AvgTemperature (city_highest line))%Q) /\
              (forall j r, (j < i)%nat -> city_rows line !! j = Some r ->
                 (AvgTemperature r < AvgTemperature (city_highest line))%Q))
         lines.
Proof.
  unfold plot_temperature_trends. intros Hlines%mapM_Some.
  assert (Forall2 (fun entry line =>
            city_color line = entry.1 /\ city_label line = entry.2 /\
            city_rows line
            = filter (fun r => City r = entry.2 /\ Year r = Some selected_year)
                     data /\
            row_idxmax (city_rows line) = Some (city_highest line))
          (enumerate cities) lines) as Hall.
  { apply Forall2_same_length_lookup. split; [by eapply Forall2_length|].
    intros i [c city] line Hentry Hline.
    pose proof (Forall2_lookup_lr _ _ _ _ _ _ Hlines Hentry Hline) as Hcl.
    unfold city_line in Hcl. simpl in Hcl.
    rewrite city_data_filter in Hcl.
    - destruct (row_idxmax _) as [top|] eqn:E; [|done].
      simpl in Hcl. injection Hcl as <-. simpl. done.
    - rewrite <- (enumerate_from_snd 0 cities).
      apply list_elem_of_fmap. exists (c, city). split; [done|].
      by eapply list_elem_of_lookup_2. }
  split; [|split].
  - assert (city_label <$> lines = (enumerate cities).*2) as ->.
    { clear Hlines. induction Hall as [|e line es ls (_ & Hl & _) _ IH];
        [done|]. csimpl. by rewrite Hl, IH. }
    apply enumerate_from_snd.
  - assert (city_color <$> lines = (enumerate cities).*1) as ->.
    { clear Hlines. induction Hall as [|e line es ls (Hc & _) _ IH];
        [done|]. csimpl. by rewrite Hc, IH. }
    apply enumerate_from_fst.
  - apply Forall_forall. intros line [i Hi]%list_elem_of_lookup.
    destruct (Forall2_lookup_r _ _ _ _ _ Hall Hi)
      as (entry & _ & _ & <- & Hrows & Htop).
    split; [done|]. by apply row_idxmax_Some.
Qed.

Lemma city_chart_lines_witness :
  exists lines,
    plot_temperature_trends tie_example ["Karachi"; "Delhi"]%string 2000
      = Some lines /\
    city_label <$> lines = ["Karachi"; "Delhi"]%string /\
    city_color <$> lines = [0; 1]%nat.
Proof.
  destruct (plot_temperature_trends tie_example ["Karachi"; "Delhi"]%string
              2000) as [lines|] eqn:E; [|vm_compute in E; discriminate E].
  exists lines. split; [reflexivity|].
  destruct (city_chart_lines tie_example ["Karachi"; "Delhi"]%string 2000
              lines E) as (Hlabels & Hcolors & _).
  split; assumption.
Defined.

(** * The heatmap *)

Lemma filter_key_absent {K V} `{EqDecision K} (l : list (K * V)) (k : K) :
  k ∉ l.*1 -> filter (fun e => e.1 = k) l = [].
Proof.
  intros Hk. apply filter_none. intros e He Hek. apply Hk.
  apply list_elem_of_fmap. by exists e.
Qed.

Lemma filter_key_NoDup {K V} `{EqDecision K} (l : list (K * V)) (k : K)
    (v : V) :
  NoDup l.*1 -> (k, v) ∈ l -> filter (fun e => e.1 = k) l = [(k, v)].
Proof.
  induction l as [|[k' v'] l IH]; csimpl; intros Hnd Hin.
  - by apply not_elem_of_nil in Hin.
  - apply NoDup_cons in Hnd as [Hk' Hnd]. rewrite filter_cons. simpl.
    apply elem_of_cons in Hin as [[= <- <-]|Hin].
    + rewrite decide_True by done. f_equal. by apply filter_key_absent.
    + rewrite decide_False; [by apply IH|].
      intros ->. apply Hk'. apply list_elem_of_fmap. by exists (k, v).
Qed.

(** X21.  The coloured map has exactly the countries of the map file, once
    each and in its order.  A country is coloured by the mean over the rows
    that carry exactly its name and is marked as without data when no row
    does; a country of the table that the map file does not name is not
    drawn. *)
Theorem heatmap_left_join (world : list string) (data : list (Row Q)) :
  merge_left world (avg_temps data)
  = (fun admin =>
       (admin,
        if decide (admin ∈ Country <$> data)
        then Some (mean (AvgTemperature <$>
                           filter (fun r => Country r = admin) data))
        else None)) <$> world.
Proof.
  unfold merge_left. induction world as [|admin world IH]; [done|].
  rewrite bind_cons, fmap_cons, IH. clear IH.
  destruct (decide (admin ∈ Country <$> data)) as [Hin|Hout].
  - rewrite (filter_key_NoDup (avg_temps data) admin
               (mean (AvgTemperature <$>
                        filter (fun r => Country r = admin) data))).
    + done.
    + unfold avg_temps. rewrite groupby_mean_keys_perm. apply NoDup_unique.
    + by apply groupby_mean_elem.
  - rewrite filter_key_absent; [done|].
    unfold avg_temps. by rewrite groupby_mean_keys_perm, elem_of_unique.
Qed.

(** X22.  The heatmap raises exactly when the table has no row, whatever
    the map file holds: the annotated country is looked up in the summary
    of the table, not in the joined map. *)
Theorem heatmap_fails_iff_empty (world : list string) (data : list (Row Q)) :
  plot_global_heatmap world data = None <-> data = [].
Proof.
  unfold plot_global_heatmap.
  pose proof (extreme_spec MAX (avg_temps data)) as Hspec.
  destruct (extreme MAX (avg_temps data)) as [[country temp]|]; simpl.
  - split; [done|]. intros ->. by destruct Hspec as (i & Hi & _).
  - split; [|done]. intros _. by apply (groupby_mean_nil String.leb Country).
Qed.

(** * The colormap registry *)

Lemma unregister_when_present (colormaps : gmap string (list string))
    (cmap_name : string) :
  (if decide (is_Some (colormaps !! cmap_name))
   then unregister cmap_name colormaps else colormaps)
  = delete cmap_name colormaps.
Proof.
  destruct (decide (is_Some (colormaps !! cmap_name))) as [|Hnone]; [done|].
  symmetry. apply delete_id. by apply eq_None_not_Some.
Qed.

(** What the function leaves in the registry. *)
Lemma generate_custom_color_maps_eq (colormaps : gmap string (list string)) :
  generate_custom_color_maps colormaps
  = Some (<["global_heatmap"%string := global_heatmap_colors]>
          (<["temperature_trends"%string := temperature_trends_cmap]>
           (<["seasonal_trends"%string := seasonal_trends_cmap]>
            (delete "global_heatmap"%string
               (delete "temperature_trends"%string
                  (delete "seasonal_trends"%string colormaps)))))).
Proof.
  unfold generate_custom_color_maps. cbn [foldl].
  rewrite !unregister_when_present. unfold register.
  rewrite lookup_delete_ne, lookup_delete_ne, lookup_delete_eq by done.
  cbn [mbind option_bind].
  rewrite lookup_insert_ne, lookup_delete_ne, lookup_delete_eq by done.
  cbn [mbind option_bind].
  rewrite lookup_insert_ne, lookup_insert_ne, lookup_delete_eq by done.
  done.
Qed.

(** X23.  Registration never fails, whatever the registry holds, also when
    the three names are already taken: afterwards they name the three
    palettes of the source and every other name is as before. *)
Theorem colormaps_registered (colormaps : gmap string (list string)) :
  exists colormaps',
    generate_custom_color_maps colormaps = Some colormaps' /\
    colormaps' !! "seasonal_trends"%string = Some seasonal_trends_cmap /\
    colormaps' !! "temperature_trends"%string = Some temperature_trends_cmap /\
    colormaps' !! "global_heatmap"%string = Some global_heatmap_colors /\
    forall other : string,
      other <> "seasonal_trends"%string ->
      other <> "temperature_trends"%string ->
      other <> "global_heatmap"%string ->
      colormaps' !! other = colormaps !! other.
Proof.
  eexists. split; [apply generate_custom_color_maps_eq|].
  repeat split.
  - by rewrite lookup_insert_ne, lookup_insert_ne, lookup_insert_eq.
  - by rewrite lookup_insert_ne, lookup_insert_eq.
  - by rewrite lookup_insert_eq.
  - intros other H1 H2 H3.
    by rewrite !lookup_insert_ne, !lookup_delete_ne by congruence.
Qed.

(** X24.  Registering again changes nothing: a second call succeeds and
    leaves the registry of the first. *)
Theorem colormaps_registered_twice (colormaps : gmap string (list string)) :
  generate_custom_color_maps colormaps ≫= generate_custom_color_maps
  = generate_custom_color_maps colormaps.
Proof.
  rewrite (generate_custom_color_maps_eq colormaps). cbn [mbind option_bind].
  rewrite generate_custom_color_maps_eq. f_equal.
  apply map_eq. intros name.
  destruct (decide (name = "global_heatmap"%string)) as [->|H3];
    [by rewrite !lookup_insert_eq|].
  rewrite !(lookup_insert_ne _ "global_heatmap"%string) by congruence.
  destruct (decide (name = "temperature_trends"%string)) as [->|H2];
    [by rewrite !lookup_insert_eq|].
  rewrite !(lookup_insert_ne _ "temperature_trends"%string) by congruence.
  destruct (decide (name = "seasonal_trends"%string)) as [->|H1];
    [by rewrite !lookup_insert_eq|].
  rewrite !(lookup_insert_ne _ "seasonal_trends"%string) by congruence.
  rewrite !lookup_delete_ne by congruence.
  by rewrite !lookup_insert_ne, !lookup_delete_ne by congruence.
Qed.
